(** * og-image: Open Graph image emitter of a static-site build

    A shallow embedding of the emitter plugin (font cache, emission driver,
    meta-tag injector) and the properties its specification states.

    Conventions of the embedding:
    - an optional property [x?: T] is an [option T]: [None] is [undefined];
    - JS strings are [string] (8-bit characters), numbers that the code
      prints with a template literal or [toString] are naturals [N] printed
      in decimal;
    - the file system is a finite map from paths to file contents, the
      console a list of entries, the network a function of the host;
    - asynchronous code is sequenced: an [await] is a bind of the [IO]
      monad below, a rejected promise or a [throw] is [Throw]. *)

From Stdlib Require Import Ascii String NArith Bool List QArith.
From stdpp Require Import base option list strings gmap pretty.

Local Open Scope stdpp_scope.

(** ** JavaScript strings *)

Definition LF : ascii := ascii_of_nat 10.
Definition CR : ascii := ascii_of_nat 13.

(** [s.startsWith(p)], also the anchored literal of a regular expression. *)
Definition startsWith (p s : string) : bool := String.prefix p s.

(** The rest of [s] after the literal [p], when [s] starts with it. *)
Fixpoint strip_prefix (p s : string) : option string :=
  match p, s with
  | EmptyString, _ => Some s
  | String a p', String b s' =>
      if Ascii.eqb a b then strip_prefix p' s' else None
  | String _ _, EmptyString => None
  end.

(** [s.replaceAll(a, b)] for one-character patterns. *)
Fixpoint replaceAll (a b : ascii) (s : string) : string :=
  match s with
  | EmptyString => EmptyString
  | String c s' => String (if Ascii.eqb c a then b else c) (replaceAll a b s')
  end.

(** Whether the character [c] occurs in [s]. *)
Fixpoint hasChar (c : ascii) (s : string) : bool :=
  match s with
  | EmptyString => false
  | String a s' => Ascii.eqb a c || hasChar c s'
  end.

(** [s.trim()]: white space as the 8-bit characters ECMAScript lists. *)
Definition isWhiteSpace (c : ascii) : bool :=
  let n := nat_of_ascii c in
  (n =? 9)%nat || (n =? 10)%nat || (n =? 11)%nat || (n =? 12)%nat
  || (n =? 13)%nat || (n =? 32)%nat || (n =? 160)%nat.

Fixpoint trimStart (s : string) : string :=
  match s with
  | String c s' => if isWhiteSpace c then trimStart s' else s
  | EmptyString => EmptyString
  end.

Definition trim (s : string) : string :=
  String.rev (trimStart (String.rev (trimStart s))).

(** Truthiness of a [string | undefined] value: [undefined] and the empty
    string are falsy. *)
Definition truthy (v : option string) : bool :=
  match v with
  | None => false
  | Some s => negb (String.eqb s "")
  end.

(** A template literal prints [undefined] by name. *)
Definition templateString (v : option string) : string :=
  from_option id "undefined" v.

(** [a ?? b] on optional values, and with a total right operand. *)
Definition nullish {A} (a b : option A) : option A :=
  match a with Some _ => a | None => b end.
Definition nullishOr {A} (a : option A) (b : A) : A := from_option id b a.

Infix "??" := nullish (at level 62, left associativity).
Infix "??!" := nullishOr (at level 62, left associativity).

(** ** Regular expressions of the source *)

(** [.] matches every character but a line terminator. *)
Definition dot (c : ascii) : bool :=
  negb (Ascii.eqb c LF || Ascii.eqb c CR).

Definition any_char (s : string) : option (ascii * string) :=
  match s with
  | String c s' => if dot c then Some (c, s') else None
  | EmptyString => None
  end.

(** [/^https?:\/\//.test(url)] *)
Definition isAbsoluteURL (url : string) : bool :=
  match strip_prefix "http" url with
  | None => false
  | Some r =>
      match strip_prefix "s" r with
      | Some r' => startsWith "://" r' || startsWith "://" r
      | None => startsWith "://" r
      end
  end.

(** The tail [.*?.ttf\)] of [urlRegex]: the lazy star takes the fewest
    characters, so the match ends at the first [.ttf)] that can close it.
    The result is the text captured up to and including [ttf]. *)
Fixpoint lazy_tail (s : string) : option string :=
  match s with
  | EmptyString => None
  | String c s' =>
      if dot c then
        if startsWith "ttf)" s' then Some (String c "ttf")
        else String c <$> lazy_tail s'
      else None
  end.

(** [urlRegex] anchored at the start of [s]; the value is capture group 1. *)
Definition urlRegex_here (s : string) : option string :=
  r1 ← strip_prefix "url(" s;
  r2 ← strip_prefix "https://fonts" r1;
  '(c1, r3) ← any_char r2;
  r4 ← strip_prefix "gstatic" r3;
  '(c2, r5) ← any_char r4;
  r6 ← strip_prefix "com/s/" r5;
  t ← lazy_tail r6;
  Some ("https://fonts" +:+ String c1 ("gstatic" +:+ String c2 ("com/s/" +:+ t))).

(** [urlRegex.exec(css)] on a fresh regular expression: the leftmost match. *)
Fixpoint urlRegex_exec (css : string) : option string :=
  match urlRegex_here css with
  | Some u => Some u
  | None =>
      match css with
      | EmptyString => None
      | String _ css' => urlRegex_exec css'
      end
  end.

(** [/\.([^./?#]+)(?:[?#]|$)/]: the leftmost dot that is followed by one or
    more characters other than [. / ? #] and then by [?], [#] or the end. *)
Definition extChar (c : ascii) : bool :=
  negb (Ascii.eqb c "." || Ascii.eqb c "/" || Ascii.eqb c "?" || Ascii.eqb c "#").

Fixpoint extension_run (s : string) : option string :=
  match s with
  | EmptyString => Some EmptyString
  | String c s' =>
      if extChar c then String c <$> extension_run s'
      else if Ascii.eqb c "?" || Ascii.eqb c "#" then Some EmptyString
      else None
  end.

Definition extension_here (s : string) : option string :=
  match s with
  | String c s' =>
      if Ascii.eqb c "." then
        match extension_run s' with
        | Some EmptyString => None
        | r => r
        end
      else None
  | EmptyString => None
  end.

Fixpoint getFileExtension (path : string) : option string :=
  match extension_here path with
  | Some e => Some e
  | None =>
      match path with
      | EmptyString => None
      | String _ path' => getFileExtension path'
      end
  end.

(** ** Data model *)

Definition Buffer := list Byte.byte.

Record Frontmatter := {
  title : option string;
  fm_description : option string;
  socialDescription : option string;
  socialImage : option string;
  tags : option (list string);
}.

Record QuartzPluginData := {
  slug : option string;
  frontmatter : option Frontmatter;
  description : option string;
  text : option string;
  filePath : option string;
}.

(** [data.frontmatter?.field] *)
Definition fm_get {A} (field : Frontmatter → option A)
    (data : QuartzPluginData) : option A :=
  frontmatter data ≫= field.

Inductive FontSpecification :=
  | FontName (name : string)
  | FontRecord (name : string) (weights : option (list N))
               (includeItalic : option bool).

Definition getFontSpecificationName (spec : FontSpecification) : string :=
  match spec with
  | FontName s => s
  | FontRecord name _ _ => name
  end.

Record Theme := {
  typography_header : FontSpecification;
  typography_body : FontSpecification;
}.

Record GlobalConfiguration := {
  baseUrl : option string;
  pageTitleSuffix : option string;
  theme : Theme;
}.

Record BuildCtx := {
  argv_output : string;
  configuration : GlobalConfiguration;
}.

Inductive ThemeKey := lightMode | darkMode.

(** The options after the defaults and the user's options are merged; the
    template and the reading-time formatter are part of the host's renderer. *)
Record SocialImageOptions := {
  colorScheme : ThemeKey;
  height : N;
  width : N;
  excludeRoot : bool;
  defaultTitle : option string;
  defaultDescription : option string;
}.

Definition defaultOptions : SocialImageOptions := {|
  colorScheme := lightMode;
  width := 1200;
  height := 630;
  excludeRoot := false;
  defaultTitle := Some "Untitled";
  defaultDescription := Some "No description provided";
|}.

(** An entry of [SatoriOptions["fonts"]]; the style is always "normal". *)
Record SatoriFont := {
  font_name : string;
  font_data : Buffer;
  font_weight : N;
}.

Record ImageOptions := {
  io_title : string;
  io_description : string;
  io_fonts : list SatoriFont;
  io_cfg : GlobalConfiguration;
  io_fileData : QuartzPluginData;
}.

Record Response := {
  ok : bool;
  statusText : string;
  body : Buffer;
}.

(** [await response.text()] *)
Definition response_text (r : Response) : string :=
  String.string_of_list_byte (body r).

(** ** The host: network and imported services *)

Class Host := {
  (** [fetch(url)]: [None] when the promise rejects. *)
  fetch : string → option Response;
  (** [joinSegments] of the site generator's path utilities. *)
  joinSegments : list string → string;
  (** [unescapeHTML] of the site generator's utilities. *)
  unescapeHTML : string → string;
  (** [buffer.toString("base64")] *)
  toBase64 : Buffer → string;
  (** The template, the vector renderer and the raster encoder together:
      [None] when one of them throws. *)
  rasterize : ImageOptions → SocialImageOptions → option string → option Buffer;
}.

(** ** World and effects *)

Inductive Exn :=
  | FetchRejected (url : string)
  | RenderFailed.

Inductive LogEntry :=
  | Log (colour : string) (message : string)
  | Warn (colour : string) (message : string).

(** The file system and the console, and two traces kept for the
    statements: the URLs requested from the network and the arguments of
    each call of the renderer. *)
Record World := {
  fs : gmap string Buffer;
  console : list LogEntry;
  requests : list string;
  layouts : list ImageOptions;
}.

Inductive Result (A : Type) :=
  | Ok (a : A)
  | Throw (e : Exn).
Arguments Ok {A} a.
Arguments Throw {A} e.

Definition IO (A : Type) : Type := World → Result A * World.

Definition io_ret {A} (a : A) : IO A := λ w, (Ok a, w).

Definition io_bind {A B} (m : IO A) (k : A → IO B) : IO B :=
  λ w, match m w with
       | (Ok a, w') => k a w'
       | (Throw e, w') => (Throw e, w')
       end.

Declare Scope io_scope.
Delimit Scope io_scope with io.
Notation "'await' x ':=' m 'in' k" := (io_bind m (λ x, k))
  (at level 10, x name, m at level 100, k at level 200) : io_scope.
Notation "m ';;;' k" := (io_bind m (λ _, k))
  (at level 100, k at level 200, right associativity) : io_scope.
Local Open Scope io_scope.

(** [fs.access(p)] followed by [fs.readFile(p)]: [None] when [access]
    rejects. *)
Definition readIfExists (p : string) : IO (option Buffer) :=
  λ w, (Ok (fs w !! p), w).

(** [fs.mkdir(dir, {recursive: true})] then [fs.writeFile(p, content)];
    directories are implicit in the path map. *)
Definition withFile (p : string) (content : Buffer) (w : World) : World :=
  {| fs := <[p := content]> (fs w); console := console w;
     requests := requests w; layouts := layouts w |}.

Definition withConsole (e : LogEntry) (w : World) : World :=
  {| fs := fs w; console := console w ++ [e];
     requests := requests w; layouts := layouts w |}.

Definition withRequest (url : string) (w : World) : World :=
  {| fs := fs w; console := console w;
     requests := requests w ++ [url]; layouts := layouts w |}.

Definition withLayout (img : ImageOptions) (w : World) : World :=
  {| fs := fs w; console := console w;
     requests := requests w; layouts := layouts w ++ [img] |}.

Definition writeFile (p : string) (content : Buffer) : IO unit :=
  λ w, (Ok tt, withFile p content w).

Definition console_emit (e : LogEntry) : IO unit :=
  λ w, (Ok tt, withConsole e w).

(** [await fetch(url)]: the request is recorded, a rejection is thrown. *)
Definition httpGet `{Host} (url : string) : IO Response :=
  λ w, match fetch url with
       | Some r => (Ok r, withRequest url w)
       | None => (Throw (FetchRejected url), withRequest url w)
       end.

(** [path.join] on segments that need no normalisation (no empty, [.] or
    [..] segment, no separator inside a segment). *)
Definition path_join (segments : list string) : string :=
  String.concat "/" segments.

Definition QUARTZ : string := "quartz".

Definition defaultHeaderWeight : list N := [700%N].
Definition defaultBodyWeight : list N := [400%N].

(** The call of the template and the renderer on [img]. *)
Definition render `{Host} (img : ImageOptions) (userOpts : SocialImageOptions)
    (iconBase64 : option string) : IO Buffer :=
  λ w, match rasterize img userOpts iconBase64 with
       | Some webp => (Ok webp, withLayout img w)
       | None => (Throw RenderFailed, withLayout img w)
       end.

(** ** Font resolver and cache *)

Section Emitter.
Context `{Host}.

Definition fontCacheKey (rawFontName : string) (weight : N) : string :=
  replaceAll " " "+" rawFontName +:+ "-" +:+ pretty weight.

Definition fontCacheDir : string :=
  path_join [QUARTZ; ".quartz-cache"; "fonts"].

Definition fontCachePath (rawFontName : string) (weight : N) : string :=
  path_join [fontCacheDir; fontCacheKey rawFontName weight].

Definition fontCssUrl (rawFontName : string) (weight : N) : string :=
  "https://fonts.googleapis.com/css2?family="
  +:+ replaceAll " " "+" rawFontName +:+ ":wght@" +:+ pretty weight.

Definition fontWarning (rawFontName : string) (weight : N)
    (cssResponse : Response) : LogEntry :=
  Log "yellow"
    (String LF "Warning: Failed to fetch font " +:+ rawFontName
     +:+ " with weight " +:+ pretty weight
     +:+ ", got " +:+ statusText cssResponse).

Definition fetchTtf (rawFontName : string) (weight : N) : IO (option Buffer) :=
  let cachePath := fontCachePath rawFontName weight in
  await cached := readIfExists cachePath in
  match cached with
  | Some data => io_ret (Some data)
  | None =>
      await cssResponse := httpGet (fontCssUrl rawFontName weight) in
      let css := response_text cssResponse in
      match urlRegex_exec css with
      | None =>
          console_emit (fontWarning rawFontName weight cssResponse) ;;;
          io_ret None
      | Some fontUrl =>
          if String.eqb fontUrl "" then io_ret None
          else
            await fontResponse := httpGet fontUrl in
            let fontData := body fontResponse in
            writeFile cachePath fontData ;;;
            io_ret (Some fontData)
      end
  end.

(** [weights.map(async (weight) => ...)] awaited as a whole: one optional
    entry per weight, [None] for the source's [null].  The batch is
    sequenced in list order. *)
Fixpoint resolveWeights (fontName : string) (weights : list N)
    : IO (list (option SatoriFont)) :=
  match weights with
  | [] => io_ret []
  | weight :: rest =>
      await data := fetchTtf fontName weight in
      let entry :=
        match data with
        | None => None
        | Some d => Some {| font_name := fontName; font_data := d;
                            font_weight := weight |}
        end in
      await entries := resolveWeights fontName rest in
      io_ret (entry :: entries)
  end.

(** [xs.filter(font => font !== null)] *)
Definition nonNull {A} (xs : list (option A)) : list A := omap id xs.

Definition fontWeights (spec : FontSpecification) (dflt : list N) : list N :=
  match spec with
  | FontName _ => dflt
  | FontRecord _ weights _ => weights ??! dflt
  end.

Definition getSatoriFonts (headerFont bodyFont : FontSpecification)
    : IO (list SatoriFont) :=
  let headerWeights := fontWeights headerFont defaultHeaderWeight in
  let bodyWeights := fontWeights bodyFont defaultBodyWeight in
  let headerFontName := getFontSpecificationName headerFont in
  let bodyFontName := getFontSpecificationName bodyFont in
  await headerFonts := resolveWeights headerFontName headerWeights in
  await bodyFonts := resolveWeights bodyFontName bodyWeights in
  io_ret (nonNull headerFonts ++ nonNull bodyFonts).

(** ** Emission driver *)

Definition write (ctx : BuildCtx) (content : Buffer) (slug ext : string)
    : IO string :=
  let pathToPage := joinSegments [argv_output ctx; slug +:+ ext] in
  writeFile pathToPage content ;;;
  io_ret pathToPage.

Definition iconPath : string := joinSegments [QUARTZ; "static"; "icon.png"].

Definition generateSocialImage (img : ImageOptions)
    (userOpts : SocialImageOptions) : IO Buffer :=
  await iconData := readIfExists iconPath in
  await iconBase64 :=
    match iconData with
    | Some d => io_ret (Some ("data:image/png;base64," +:+ toBase64 d))
    | None =>
        console_emit
          (Warn "yellow" ("Warning: Could not find icon at " +:+ iconPath)) ;;;
        io_ret None
    end in
  render img userOpts iconBase64.

Definition effectiveTitle (cfg : GlobalConfiguration)
    (fileData : QuartzPluginData) (fullOptions : SocialImageOptions) : string :=
  let titleSuffix := pageTitleSuffix cfg ??! "" in
  (fm_get title fileData ?? defaultTitle fullOptions ??! "") +:+ titleSuffix.

Definition effectiveDescription (fileData : QuartzPluginData)
    (fullOptions : SocialImageOptions) : string :=
  fm_get socialDescription fileData ?? fm_get fm_description fileData
  ??! unescapeHTML
        ((trim <$> description fileData) ?? defaultDescription fullOptions
         ??! "").

Definition ogImageSlug (fileData : QuartzPluginData) : string :=
  templateString (slug fileData) +:+ "-og-image".

Definition processOgImage (ctx : BuildCtx) (fileData : QuartzPluginData)
    (fonts : list SatoriFont) (fullOptions : SocialImageOptions) : IO string :=
  let cfg := configuration ctx in
  await stream :=
    generateSocialImage
      {| io_title := effectiveTitle cfg fileData fullOptions;
         io_description := effectiveDescription fileData fullOptions;
         io_fonts := fonts; io_cfg := cfg; io_fileData := fileData |}
      fullOptions in
  write ctx stream (ogImageSlug fileData) ".webp".

(** [for (const x of xs) { ... yield ... }]: the values the body yields, in
    order; a throw ends the generator. *)
Fixpoint for_of {A B} (body : A → IO (list B)) (xs : list A) : IO (list B) :=
  match xs with
  | [] => io_ret []
  | x :: rest =>
      await ys := body x in
      await zs := for_of body rest in
      io_ret (ys ++ zs)
  end.

(** [data.frontmatter?.socialImage !== undefined] *)
Definition hasSocialImage (data : QuartzPluginData) : bool :=
  match fm_get socialImage data with
  | Some _ => true
  | None => false
  end.

Definition loadFonts (ctx : BuildCtx) : IO (list SatoriFont) :=
  let theme := theme (configuration ctx) in
  getSatoriFonts (typography_header theme) (typography_body theme).

Definition emit_page (fullOptions : SocialImageOptions) (ctx : BuildCtx)
    (fonts : list SatoriFont) (data : QuartzPluginData) : IO (list string) :=
  if hasSocialImage data then io_ret []
  else
    await p := processOgImage ctx data fonts fullOptions in
    io_ret [p].

(** [CustomOgImages(userOpts).emit]; [content] lists the data of each
    page's vfile (the tree of a pair is not used). *)
Definition emit (fullOptions : SocialImageOptions) (ctx : BuildCtx)
    (content : list QuartzPluginData) : IO (list string) :=
  await fonts := loadFonts ctx in
  for_of (emit_page fullOptions ctx fonts) content.

Inductive ChangeType := add | change | delete.

Record ChangeEvent := {
  type : ChangeType;
  file : option QuartzPluginData;
}.

Definition partialEmit_event (fullOptions : SocialImageOptions)
    (ctx : BuildCtx) (fonts : list SatoriFont) (changeEvent : ChangeEvent)
    : IO (list string) :=
  match file changeEvent with
  | None => io_ret []
  | Some data =>
      if hasSocialImage data then io_ret []
      else
        match type changeEvent with
        | add | change =>
            await p := processOgImage ctx data fonts fullOptions in
            io_ret [p]
        | delete => io_ret []
        end
  end.

(** [CustomOgImages(userOpts).partialEmit] *)
Definition partialEmit (fullOptions : SocialImageOptions) (ctx : BuildCtx)
    (changeEvents : list ChangeEvent) : IO (list string) :=
  await fonts := loadFonts ctx in
  for_of (partialEmit_event fullOptions ctx fonts) changeEvents.

End Emitter.

(** ** Meta-tag injector *)

Inductive MetaAttr := property | name.

Record Meta := {
  meta_attr : MetaAttr;
  meta_key : string;
  meta_content : string;
}.

Definition staticUrl (baseUrl path : string) : string :=
  "https://" +:+ baseUrl +:+ "/static/" +:+ path.

(** The value of [userDefinedOgImagePath] after the guarded rewrite. *)
Definition userDefinedOgImagePath (baseUrl : string)
    (pageData : QuartzPluginData) : option string :=
  let userDefined := fm_get socialImage pageData in
  if truthy userDefined then
    (λ u, if isAbsoluteURL u then u else staticUrl baseUrl u) <$> userDefined
  else userDefined.

Definition generatedOgImagePath (baseUrl : string)
    (pageData : QuartzPluginData) : option string :=
  let isRealFile := bool_decide (filePath pageData ≠ None) in
  if isRealFile then
    Some ("https://" +:+ baseUrl +:+ "/" +:+ templateString (slug pageData)
          +:+ "-og-image.webp")
  else None.

Definition defaultOgImagePath (baseUrl : string) : string :=
  staticUrl baseUrl "og-image.png".

Definition ogImagePath (baseUrl : string) (pageData : QuartzPluginData)
    : string :=
  userDefinedOgImagePath baseUrl pageData
  ?? generatedOgImagePath baseUrl pageData
  ??! defaultOgImagePath baseUrl.

(** The element of [additionalHead]: the tags in document order. *)
Definition ogImageHead (fullOptions : SocialImageOptions) (baseUrl : string)
    (pageData : QuartzPluginData) : list Meta :=
  let path := ogImagePath baseUrl pageData in
  let ogImageMimeType := "image/" +:+ (getFileExtension path ??! "png") in
  (if negb (truthy (userDefinedOgImagePath baseUrl pageData)) then
     [ {| meta_attr := property; meta_key := "og:image:width";
          meta_content := pretty (width fullOptions) |};
       {| meta_attr := property; meta_key := "og:image:height";
          meta_content := pretty (height fullOptions) |} ]
   else [])
  ++ [ {| meta_attr := property; meta_key := "og:image";
          meta_content := path |};
       {| meta_attr := property; meta_key := "og:image:url";
          meta_content := path |};
       {| meta_attr := name; meta_key := "twitter:image";
          meta_content := path |};
       {| meta_attr := property; meta_key := "og:image:type";
          meta_content := ogImageMimeType |} ].

(** [CustomOgImages(userOpts).externalResources(ctx).additionalHead],
    the empty list for the empty object. *)
Definition externalResources (fullOptions : SocialImageOptions)
    (ctx : BuildCtx) : list (QuartzPluginData → list Meta) :=
  match baseUrl (configuration ctx) with
  | Some b => if truthy (Some b) then [ogImageHead fullOptions b] else []
  | None => []
  end.

(** ** A concrete host for the examples

    A small network (one family that is served, one whose stylesheet is an
    error page, one whose stylesheet comes with an error status, every other
    request rejected) and plain stand-ins for the imported services. *)

(** [s.replace(/pat/g, rep)] for a literal pattern; [skip] counts the
    characters of a match still to be dropped. *)
Fixpoint replaceLiteral_go (pat rep s : string) (skip : nat) : string :=
  match s with
  | EmptyString => EmptyString
  | String c s' =>
      match skip with
      | S k => replaceLiteral_go pat rep s' k
      | O =>
          if startsWith pat s
          then rep +:+ replaceLiteral_go pat rep s' (String.length pat - 1)
          else String c (replaceLiteral_go pat rep s' 0)
      end
  end.

Definition replaceLiteral (pat rep s : string) : string :=
  replaceLiteral_go pat rep s 0.

Definition unescapeEntities (html : string) : string :=
  replaceLiteral "&#039;" "'"
    (replaceLiteral "&quot;" (String (ascii_of_nat 34) EmptyString)
       (replaceLiteral "&gt;" ">"
          (replaceLiteral "&lt;" "<"
             (replaceLiteral "&amp;" "&" html)))).

Definition joinNonEmpty (segments : list string) : string :=
  String.concat "/" (filter (λ s, s ≠ "") segments).

Definition interCss : string :=
  "@font-face { font-family: 'Inter'; font-weight: 700; "
  +:+ "src: url(https://fonts.gstatic.com/s/inter/v13/bold.ttf) "
  +:+ "format('truetype'); }".

Definition interTtf : Buffer := String.list_byte_of_string "TTF-INTER-700".

Definition exampleFetch (url : string) : option Response :=
  if String.eqb url "https://fonts.googleapis.com/css2?family=Inter:wght@700"
  then Some {| ok := true; statusText := "OK";
               body := String.list_byte_of_string interCss |}
  else if String.eqb url "https://fonts.gstatic.com/s/inter/v13/bold.ttf"
  then Some {| ok := true; statusText := "OK"; body := interTtf |}
  else if String.eqb url
            "https://fonts.googleapis.com/css2?family=No+Such+Font:wght@400"
  then Some {| ok := false; statusText := "Bad Request";
               body := String.list_byte_of_string "<html>400</html>" |}
  else if String.eqb url
            "https://fonts.googleapis.com/css2?family=Mirror:wght@400"
  then Some {| ok := false; statusText := "Service Unavailable";
               body := String.list_byte_of_string
                 "src: url(https://fonts.gstatic.com/s/mirror/v1/r.ttf);" |}
  else if String.eqb url "https://fonts.gstatic.com/s/mirror/v1/r.ttf"
  then Some {| ok := true; statusText := "OK";
               body := String.list_byte_of_string "TTF-MIRROR-400" |}
  else None.

Definition exampleHost : Host := {|
  fetch := exampleFetch;
  joinSegments := joinNonEmpty;
  unescapeHTML := unescapeEntities;
  toBase64 := String.string_of_list_byte;
  rasterize := λ img _ _,
    if String.eqb (io_title img) "" then None
    else Some (String.list_byte_of_string
                 (io_title img +:+ "|" +:+ io_description img));
|}.

Definition emptyWorld : World :=
  {| fs := ∅; console := []; requests := []; layouts := [] |}.

Definition exampleTheme : Theme :=
  {| typography_header := FontName "Inter";
     typography_body := FontRecord "No Such Font" None None |}.

Definition exampleCfg : GlobalConfiguration :=
  {| baseUrl := Some "example.com"; pageTitleSuffix := Some " | Site";
     theme := exampleTheme |}.

Definition exampleCtx : BuildCtx :=
  {| argv_output := "public"; configuration := exampleCfg |}.

Definition noFrontmatter : Frontmatter :=
  {| title := None; fm_description := None; socialDescription := None;
     socialImage := None; tags := None |}.

Definition withSocialImage (img : string) : Frontmatter :=
  {| title := Some "Post"; fm_description := None; socialDescription := None;
     socialImage := Some img; tags := None |}.

Definition examplePage (fm : option Frontmatter) : QuartzPluginData :=
  {| slug := Some "a/b"; frontmatter := fm; description := Some "X";
     text := None; filePath := Some "content/a/b.md" |}.

(** A page with its own image, one whose image is the empty string, and
    one with neither frontmatter text nor excerpt. *)
Definition coverPage : QuartzPluginData :=
  examplePage (Some (withSocialImage "cover.png")).

Definition emptyImagePage : QuartzPluginData :=
  examplePage (Some (withSocialImage "")).

Definition barePage : QuartzPluginData :=
  {| slug := Some "notes/bare"; frontmatter := Some noFrontmatter;
     description := None; text := None;
     filePath := Some "content/notes/bare.md" |}.

Definition entityOptions : SocialImageOptions :=
  {| colorScheme := lightMode; width := 1200; height := 630;
     excludeRoot := false; defaultTitle := Some "Untitled";
     defaultDescription := Some "Tom &amp; Jerry" |}.

(** ** The specification's wording, for comparison with the code *)

(** The description priority as the specification words it: the two
    frontmatter overrides, then the excerpt (trimmed and unescaped), then
    the configured default as it is. *)
Definition spec_description `{Host} (fileData : QuartzPluginData)
    (fullOptions : SocialImageOptions) : string :=
  match fm_get socialDescription fileData with
  | Some d => d
  | None =>
      match fm_get fm_description fileData with
      | Some d => d
      | None =>
          match description fileData with
          | Some excerpt => unescapeHTML (trim excerpt)
          | None => defaultDescription fullOptions ??! ""
          end
      end
  end.

(** A user-supplied image reference exists for the injector when the
    frontmatter's [socialImage] is a non-empty string. *)
Definition hasUserImage (pageData : QuartzPluginData) : Prop :=
  ∃ u, fm_get socialImage pageData = Some u ∧ u ≠ "".

(** The image URL by the specification's priority: the resolved user
    reference, else the generated path of a real file, else the default. *)
Definition spec_ogImagePath (baseUrl : string) (pageData : QuartzPluginData)
    : string :=
  match fm_get socialImage pageData with
  | Some u =>
      if String.eqb u "" then
        generatedOgImagePath baseUrl pageData ??! defaultOgImagePath baseUrl
      else if isAbsoluteURL u then u
      else staticUrl baseUrl u
  | None =>
      generatedOgImagePath baseUrl pageData ??! defaultOgImagePath baseUrl
  end.

(** A tag with the given [property] is among the emitted ones. *)
Definition emitsProperty (key : string) (tags : list Meta) : Prop :=
  ∃ m, m ∈ tags ∧ meta_attr m = property ∧ meta_key m = key.

(** The icon argument of the renderer in world [w]. *)
Definition iconBase64In `{Host} (w : World) : option string :=
  (λ d, "data:image/png;base64," +:+ toBase64 d) <$> fs w !! iconPath.

(** The world in which the renderer is called: the console has the icon
    warning when the icon file is missing. *)
Definition afterIconCheck `{Host} (w : World) : World :=
  match fs w !! iconPath with
  | Some _ => w
  | None =>
      withConsole
        (Warn "yellow" ("Warning: Could not find icon at " +:+ iconPath)) w
  end.

(** The argument record that [processOgImage] hands to the renderer. *)
Definition imageOptionsOf `{Host} (ctx : BuildCtx) (fileData : QuartzPluginData)
    (fonts : list SatoriFont) (fullOptions : SocialImageOptions)
    : ImageOptions :=
  {| io_title := effectiveTitle (configuration ctx) fileData fullOptions;
     io_description := effectiveDescription fileData fullOptions;
     io_fonts := fonts; io_cfg := configuration ctx;
     io_fileData := fileData |}.

(** The output path of a page's image. *)
Definition ogImageOutputPath `{Host} (ctx : BuildCtx) (s : string) : string :=
  joinSegments [argv_output ctx; s +:+ "-og-image" +:+ ".webp"].

(** ** The default layout

    [defaultImage] as a tree of elements.  The fields of [cfg], [userOpts]
    and [fileData] that the records above leave out (colours, locale, date
    type, dates, reading-time formatter) come with the layout's input. *)

(** A date, as milliseconds since the epoch. *)
Definition Date := Z.

Record ColorScheme := {
  light : string;
  lightgray : string;
  gray : string;
  darkgray : string;
  dark : string;
  secondary : string;
  tertiary : string;
  highlight : string;
  textHighlight : string;
}.

Record Colors := {
  colors_lightMode : ColorScheme;
  colors_darkMode : ColorScheme;
}.

(** [theme.colors[colorScheme]] *)
Definition colorsOf (colors : Colors) (key : ThemeKey) : ColorScheme :=
  match key with
  | lightMode => colors_lightMode colors
  | darkMode => colors_darkMode colors
  end.

(** The services the layout imports. *)
Class LayoutHost := {
  (** [d.toLocaleDateString(locale, {year: "numeric", month: "short",
      day: "2-digit"})] *)
  toLocaleDateString : Date → string → string;
  (** [Math.ceil(readingTime(text).minutes)] *)
  readingMinutes : string → N;
}.

Record LayoutInput := {
  li_cfg : GlobalConfiguration;
  li_colors : Colors;
  li_locale : option string;
  li_defaultDateType : option string;
  li_userOpts : SocialImageOptions;
  li_readingTimeText : option (N → string);
  li_title : string;
  li_description : string;
  li_fileData : QuartzPluginData;
  li_dates : option (gmap string Date);
  li_iconBase64 : option string;
}.

(** A property or style value: a string or a number. *)
Inductive Value :=
  | VStr (s : string)
  | VNum (q : Q).

#[warnings="-register-all"]
Inductive VNode :=
  | Element (tag : string) (attrs : list (string * Value))
            (style : list (string * Value)) (children : list VNode)
  | TextNode (s : string).

(** [{v}] for a [string | undefined] child: [undefined] renders nothing. *)
Definition valueChild (v : option string) : list VNode :=
  match v with
  | Some s => [TextNode s]
  | None => []
  end.

(** [{v && node}]: a falsy [v] is itself the child. *)
Definition andChild (v : option string) (node : VNode) : list VNode :=
  if truthy v then [node] else valueChild v.

(** [getDate(cfg, data)] *)
Definition getDate (defaultDateType : option string)
    (dates : option (gmap string Date)) : option Date :=
  dates ≫= λ m, m !! (defaultDateType ??! "modified").

(** [formatDate(d, locale)], the locale defaulting to "en-US". *)
Definition formatDate `{LayoutHost} (d : Date) (locale : option string)
    : string :=
  toLocaleDateString d (locale ??! "en-US").

Definition fontBreakPoint : nat := 32.

Definition svgIcon (label : string) (shapes : list VNode) : VNode :=
  Element "svg"
    [("width", VStr "28"); ("height", VStr "28");
     ("viewBox", VStr "0 0 24 24"); ("fill", VStr "none");
     ("stroke", VStr "currentColor"); ("role", VStr "img");
     ("aria-label", VStr label)]
    [("marginRight", VStr "0.5rem")]
    shapes.

Definition dateIcon : VNode :=
  svgIcon "Date"
    [ Element "rect"
        [("x", VStr "3"); ("y", VStr "4"); ("width", VStr "18");
         ("height", VStr "18"); ("rx", VStr "2"); ("ry", VStr "2")] [] [];
      Element "line"
        [("x1", VStr "16"); ("y1", VStr "2"); ("x2", VStr "16");
         ("y2", VStr "6")] [] [];
      Element "line"
        [("x1", VStr "8"); ("y1", VStr "2"); ("x2", VStr "8");
         ("y2", VStr "6")] [] [];
      Element "line"
        [("x1", VStr "3"); ("y1", VStr "10"); ("x2", VStr "21");
         ("y2", VStr "10")] [] [] ].

Definition readingTimeIcon : VNode :=
  svgIcon "Reading time"
    [ Element "circle"
        [("cx", VStr "12"); ("cy", VStr "12"); ("r", VStr "10")] [] [];
      Element "polyline" [("points", VStr "12 6 12 12 16 14")] [] [] ].

(** One chip of the tag row: [#{tag}] is two text children. *)
Definition tagChip (scheme : ColorScheme) (tag : string) : VNode :=
  Element "div" []
    [("display", VStr "flex"); ("padding", VStr "0.5rem 1rem");
     ("backgroundColor", VStr (highlight scheme));
     ("color", VStr (secondary scheme)); ("borderRadius", VStr "10px");
     ("fontSize", VNum 24)]
    [TextNode "#"; TextNode tag].

Definition defaultImage `{LayoutHost} (i : LayoutInput) : VNode :=
  let cfg := li_cfg i in
  let scheme := colorsOf (li_colors i) (colorScheme (li_userOpts i)) in
  let useSmallerFont := (fontBreakPoint <? String.length (li_title i))%nat in
  let rawDate := getDate (li_defaultDateType i) (li_dates i) in
  let date := (λ d, formatDate d (li_locale i)) <$> rawDate in
  let minutes := readingMinutes (text (li_fileData i) ??! "") in
  let readingTimeText :=
    (li_readingTimeText i ??! (λ time, pretty time +:+ " min read")) minutes in
  let tags := fm_get tags (li_fileData i) ??! [] in
  let bodyFont := getFontSpecificationName (typography_body (theme cfg)) in
  let headerFont := getFontSpecificationName (typography_header (theme cfg)) in
  Element "div" []
    [("display", VStr "flex"); ("flexDirection", VStr "column");
     ("height", VStr "100%"); ("width", VStr "100%");
     ("backgroundColor", VStr (light scheme)); ("padding", VStr "2.5rem");
     ("fontFamily", VStr bodyFont)]
    [ Element "div" []
        [("display", VStr "flex"); ("alignItems", VStr "center");
         ("gap", VStr "1rem"); ("marginBottom", VStr "0.5rem")]
        (andChild (li_iconBase64 i)
           (Element "img"
              [("src", VStr (li_iconBase64 i ??! "")); ("alt", VStr "");
               ("width", VNum 56); ("height", VNum 56)]
              [("borderRadius", VStr "50%")] [])
         ++ [ Element "div" []
                [("display", VStr "flex"); ("fontSize", VNum 32);
                 ("color", VStr (gray scheme));
                 ("fontFamily", VStr bodyFont)]
                (valueChild (baseUrl cfg)) ]);
      Element "div" []
        [("display", VStr "flex"); ("marginTop", VStr "1rem");
         ("marginBottom", VStr "1.5rem")]
        [ Element "h1" []
            [("margin", VNum 0);
             ("fontSize", VNum (if useSmallerFont then 64 else 72));
             ("fontFamily", VStr headerFont); ("fontWeight", VNum 700);
             ("color", VStr (dark scheme)); ("lineHeight", VNum 1.2);
             ("display", VStr "-webkit-box");
             ("WebkitBoxOrient", VStr "vertical");
             ("WebkitLineClamp", VNum 2); ("overflow", VStr "hidden");
             ("textOverflow", VStr "ellipsis")]
            [TextNode (li_title i)] ];
      Element "div" []
        [("display", VStr "flex"); ("flex", VNum 1); ("fontSize", VNum 36);
         ("color", VStr (darkgray scheme)); ("lineHeight", VNum 1.4)]
        [ Element "p" []
            [("margin", VNum 0); ("display", VStr "-webkit-box");
             ("WebkitBoxOrient", VStr "vertical");
             ("WebkitLineClamp", VNum 5); ("overflow", VStr "hidden");
             ("textOverflow", VStr "ellipsis")]
            [TextNode (li_description i)] ];
      Element "div" []
        [("display", VStr "flex"); ("alignItems", VStr "center");
         ("justifyContent", VStr "space-between"); ("marginTop", VStr "2rem");
         ("paddingTop", VStr "2rem");
         ("borderTop", VStr ("1px solid " +:+ lightgray scheme))]
        [ Element "div" []
            [("display", VStr "flex"); ("alignItems", VStr "center");
             ("gap", VStr "2rem"); ("color", VStr (gray scheme));
             ("fontSize", VNum 28)]
            (andChild date
               (Element "div" []
                  [("display", VStr "flex"); ("alignItems", VStr "center")]
                  (dateIcon :: valueChild date))
             ++ [ Element "div" []
                    [("display", VStr "flex"); ("alignItems", VStr "center")]
                    [readingTimeIcon; TextNode readingTimeText] ]);
          Element "div" []
            [("display", VStr "flex"); ("gap", VStr "0.5rem");
             ("flexWrap", VStr "wrap"); ("justifyContent", VStr "flex-end");
             ("maxWidth", VStr "60%")]
            (tagChip scheme <$> take 3 tags) ] ].

(** The text leaves of a tree, in document order. *)
Fixpoint texts (n : VNode) : list string :=
  match n with
  | TextNode s => [s]
  | Element _ _ _ children => flat_map texts children
  end.

(** The elements with the given tag, in document order. *)
Fixpoint elementsByTag (t : string) (n : VNode) : list VNode :=
  match n with
  | TextNode _ => []
  | Element tag _ _ children =>
      (if String.eqb tag t then [n] else [])
      ++ flat_map (elementsByTag t) children
  end.

Definition styleOf (key : string) (n : VNode) : option Value :=
  match n with
  | Element _ _ style _ => snd <$> find (λ kv, String.eqb (fst kv) key) style
  | TextNode _ => None
  end.

Definition attrOf (key : string) (n : VNode) : option Value :=
  match n with
  | Element _ attrs _ _ => snd <$> find (λ kv, String.eqb (fst kv) key) attrs
  | TextNode _ => None
  end.

(** ** Relations between worlds, for the statements *)

(** The page of a change event that the incremental build emits. *)
Definition changedData (e : ChangeEvent) : option QuartzPluginData :=
  match type e with
  | add | change => file e
  | delete => None
  end.

(** Every file is kept with its content; the console and the request
    trace are extended; the renderer is not called. *)
Definition cacheStep (w w' : World) : Prop :=
  fs w ⊆ fs w'
  ∧ console w `prefix_of` console w'
  ∧ requests w `prefix_of` requests w'
  ∧ layouts w' = layouts w.

(** No file is removed; the console is extended, the network is not used
    and every new call of the renderer has the fonts [fonts]. *)
Definition pageStep (fonts : list SatoriFont) (w w' : World) : Prop :=
  dom (fs w) ⊆ dom (fs w')
  ∧ console w `prefix_of` console w'
  ∧ requests w' = requests w
  ∧ ∃ imgs, layouts w' = layouts w ++ imgs
            ∧ Forall (λ img, io_fonts img = fonts) imgs.

(** What an entry of a resolved batch says about its weight: it has the
    font's name and that weight, and its bytes are in the cache. *)
Definition resolvedFor (f : string) (w' : World) (wt : N)
    (e : option SatoriFont) : Prop :=
  match e with
  | Some e =>
      font_name e = f ∧ font_weight e = wt
      ∧ fs w' !! fontCachePath f wt = Some (font_data e)
  | None => True
  end.

(** The output path of a page's image, the slug printed as the template
    literal prints it. *)
Definition outputPathOf `{Host} (ctx : BuildCtx) (data : QuartzPluginData)
    : string :=
  joinSegments [argv_output ctx; ogImageSlug data +:+ ".webp"].

(** ** Further example data *)

(** The example host with a renderer that never fails. *)
Definition steadyHost : Host := {|
  fetch := exampleFetch;
  joinSegments := joinNonEmpty;
  unescapeHTML := unescapeEntities;
  toBase64 := String.string_of_list_byte;
  rasterize := λ img _ _, Some (String.list_byte_of_string (io_title img));
|}.



Definition interFont : SatoriFont :=
  {| font_name := "Inter"; font_data := interTtf; font_weight := 700 |}.

(** The world after a first full build of the example page. *)
Definition builtWorld : World :=
  (@emit exampleHost defaultOptions exampleCtx [examplePage None]
     emptyWorld).2.

(** ** Example data for the layout *)

Definition exampleLayoutHost : LayoutHost := {|
  toLocaleDateString := λ d locale, locale +:+ ":" +:+ pretty d;
  readingMinutes := λ t, N.of_nat (String.length t);
|}.

Definition exampleScheme : ColorScheme :=
  {| light := "#faf8f8"; lightgray := "#e5e5e5"; gray := "#b8b8b8";
     darkgray := "#4e4e4e"; dark := "#2b2b2b"; secondary := "#284b63";
     tertiary := "#84a59d"; highlight := "#8f9fa926";
     textHighlight := "#fff23688" |}.

Definition exampleLayoutInput (t : string) (tagList : list string)
    (dates : option (gmap string Date)) : LayoutInput :=
  {| li_cfg := exampleCfg;
     li_colors := {| colors_lightMode := exampleScheme;
                     colors_darkMode := exampleScheme |};
     li_locale := None; li_defaultDateType := None;
     li_userOpts := defaultOptions; li_readingTimeText := None;
     li_title := t; li_description := "About";
     li_fileData :=
       {| slug := Some "a/b";
          frontmatter :=
            Some {| title := Some t; fm_description := None;
                    socialDescription := None; socialImage := None;
                    tags := Some tagList |};
          description := None; text := Some "four"; filePath := None |};
     li_dates := dates; li_iconBase64 := None |}.

(** * Properties *)

(** ** Strings *)

Lemma string_app_cons (x : ascii) (a b : string) :
  String x a +:+ b = String x (a +:+ b).
Proof. reflexivity. Qed.

Lemma string_app_assoc (a b c : string) : (a +:+ b) +:+ c = a +:+ b +:+ c.
Proof.
  induction a as [|x a IH]; [done|]. rewrite !string_app_cons. by f_equal.
Qed.

(** ** The effect monad *)

Lemma io_bind_ret_l {A B} (a : A) (k : A → IO B) w :
  io_bind (io_ret a) k w = k a w.
Proof. reflexivity. Qed.

Lemma io_bind_ret_r {A} (m : IO A) w : io_bind m io_ret w = m w.
Proof. unfold io_bind, io_ret. by destruct (m w) as [[a|e] w']. Qed.

Lemma io_bind_Ok {A B} (m : IO A) (k : A → IO B) w a w' :
  m w = (Ok a, w') → io_bind m k w = k a w'.
Proof. unfold io_bind. by intros ->. Qed.


Lemma io_bind_inv_Ok {A B} (m : IO A) (k : A → IO B) w b w2 :
  io_bind m k w = (Ok b, w2) →
  ∃ a w1, m w = (Ok a, w1) ∧ k a w1 = (Ok b, w2).
Proof.
  unfold io_bind. destruct (m w) as [[a|e] w1]; [eauto | discriminate].
Qed.

(** ** Emission driver: pages that are skipped *)

Section EmitterProperties.
Context `{Host}.

Lemma for_of_skip {A B} (body : A → IO (list B)) x pre post w :
  (∀ w0, body x w0 = (Ok [], w0)) →
  for_of body (pre ++ x :: post) w = for_of body (pre ++ post) w.
Proof.
  intros Hskip. revert w.
  induction pre as [|y pre IH]; intros w; simpl.
  - rewrite (io_bind_Ok _ _ _ _ _ (Hskip w)). apply io_bind_ret_r.
  - unfold io_bind at 1 3. destruct (body y w) as [[ys|e] w1]; [|done].
    unfold io_bind. by rewrite IH.
Qed.

Lemma hasSocialImage_defined data img :
  fm_get socialImage data = Some img → hasSocialImage data = true.
Proof. unfold hasSocialImage. by intros ->. Qed.

Lemma emit_page_skip fullOptions ctx fonts data w :
  hasSocialImage data = true →
  emit_page fullOptions ctx fonts data w = (Ok [], w).
Proof. unfold emit_page. by intros ->. Qed.

Lemma partialEmit_event_skip fullOptions ctx fonts data ty w :
  hasSocialImage data = true →
  partialEmit_event fullOptions ctx fonts
    {| type := ty; file := Some data |} w = (Ok [], w).
Proof. unfold partialEmit_event; simpl. by intros ->. Qed.

Lemma emit_skip fullOptions ctx data pre post w :
  hasSocialImage data = true →
  emit fullOptions ctx (pre ++ data :: post) w
  = emit fullOptions ctx (pre ++ post) w.
Proof.
  intros Hs. unfold emit, io_bind.
  destruct (loadFonts ctx w) as [[fonts|e] w1]; [|done].
  apply for_of_skip. intros w0. by apply emit_page_skip.
Qed.

Lemma partialEmit_skip fullOptions ctx data ty pre post w :
  hasSocialImage data = true →
  partialEmit fullOptions ctx
    (pre ++ {| type := ty; file := Some data |} :: post) w
  = partialEmit fullOptions ctx (pre ++ post) w.
Proof.
  intros Hs. unfold partialEmit, io_bind.
  destruct (loadFonts ctx w) as [[fonts|e] w1]; [|done].
  apply for_of_skip. intros w0. by apply partialEmit_event_skip.
Qed.

(** C1. A page whose frontmatter declares a custom social image takes the
    skip path in both emitters: its step of the full build and of the
    incremental build (whatever the kind of the change event) yields nothing,
    raises nothing and leaves the world, hence every file, as it was; and a
    whole run behaves as if the page were not in its input. *)
Theorem custom_image_page_is_skipped fullOptions ctx fonts data img :
  fm_get socialImage data = Some img →
  (∀ w, emit_page fullOptions ctx fonts data w = (Ok [], w))
  ∧ (∀ ty w, partialEmit_event fullOptions ctx fonts
               {| type := ty; file := Some data |} w = (Ok [], w))
  ∧ (∀ pre post w, emit fullOptions ctx (pre ++ data :: post) w
                   = emit fullOptions ctx (pre ++ post) w)
  ∧ (∀ ty pre post w,
       partialEmit fullOptions ctx
         (pre ++ {| type := ty; file := Some data |} :: post) w
       = partialEmit fullOptions ctx (pre ++ post) w).
Proof.
  intros Himg. apply hasSocialImage_defined in Himg.
  repeat split; intros.
  - by apply emit_page_skip.
  - by apply partialEmit_event_skip.
  - by apply emit_skip.
  - by apply partialEmit_skip.
Qed.

End EmitterProperties.

(** ** Emission driver: one page's image *)

Section ProcessProperties.
Context `{Host}.

Lemma afterIconCheck_fs w : fs (afterIconCheck w) = fs w.
Proof. unfold afterIconCheck. by destruct (fs w !! iconPath). Qed.

Lemma afterIconCheck_layouts w : layouts (afterIconCheck w) = layouts w.
Proof. unfold afterIconCheck. by destruct (fs w !! iconPath). Qed.

Lemma generateSocialImage_run img userOpts w :
  generateSocialImage img userOpts w
  = render img userOpts (iconBase64In w) (afterIconCheck w).
Proof.
  unfold generateSocialImage, iconBase64In, afterIconCheck, readIfExists.
  unfold io_bind at 1. unfold io_bind at 1.
  by destruct (fs w !! iconPath).
Qed.

Lemma processOgImage_run ctx fileData fonts fullOptions w :
  let img := imageOptionsOf ctx fileData fonts fullOptions in
  let w1 := afterIconCheck w in
  let out := joinSegments [argv_output ctx; ogImageSlug fileData +:+ ".webp"] in
  processOgImage ctx fileData fonts fullOptions w
  = match rasterize img fullOptions (iconBase64In w) with
    | Some webp => (Ok out, withFile out webp (withLayout img w1))
    | None => (Throw RenderFailed, withLayout img w1)
    end.
Proof.
  intros img w1 out. subst img w1 out.
  unfold processOgImage, io_bind, imageOptionsOf.
  rewrite generateSocialImage_run. unfold render.
  by destruct (rasterize _ _ _).
Qed.

Lemma processOgImage_layouts ctx fileData fonts fullOptions w :
  layouts (processOgImage ctx fileData fonts fullOptions w).2
  = layouts w ++ [imageOptionsOf ctx fileData fonts fullOptions].
Proof.
  rewrite processOgImage_run.
  destruct (rasterize _ _ _); simpl; by rewrite afterIconCheck_layouts.
Qed.

Lemma effectiveDescription_cases fileData fullOptions :
  effectiveDescription fileData fullOptions
  = match fm_get socialDescription fileData with
    | Some d => d
    | None =>
        match fm_get fm_description fileData with
        | Some d => d
        | None =>
            match description fileData with
            | Some excerpt => unescapeHTML (trim excerpt)
            | None => unescapeHTML (defaultDescription fullOptions ??! "")
            end
        end
    end.
Proof.
  unfold effectiveDescription.
  destruct (fm_get socialDescription fileData); [done|].
  destruct (fm_get fm_description fileData); [done|].
  by destruct (description fileData).
Qed.

(** C5, as amended. For a page without a custom social image the emitter
    calls the layout once, with the description chosen by priority: the
    frontmatter social description if defined; else the frontmatter
    description if defined; else the page's excerpt, trimmed and then
    HTML-unescaped, if defined; else the configured default description,
    HTML-unescaped as well (the empty string when none is configured). *)
Theorem description_priority fullOptions ctx fonts data w :
  fm_get socialImage data = None →
  ∃ img,
    layouts (emit_page fullOptions ctx fonts data w).2 = layouts w ++ [img]
    ∧ io_description img
      = match fm_get socialDescription data with
        | Some d => d
        | None =>
            match fm_get fm_description data with
            | Some d => d
            | None =>
                match description data with
                | Some excerpt => unescapeHTML (trim excerpt)
                | None => unescapeHTML (defaultDescription fullOptions ??! "")
                end
            end
        end.
Proof.
  intros Hnone. exists (imageOptionsOf ctx data fonts fullOptions). split.
  - unfold emit_page, hasSocialImage. rewrite Hnone.
    pose proof (processOgImage_layouts ctx data fonts fullOptions w) as Hl.
    unfold io_bind.
    by destruct (processOgImage ctx data fonts fullOptions w) as [[p|e] w'].
  - apply effectiveDescription_cases.
Qed.

(** C6. For a page whose frontmatter has no title (or that has no
    frontmatter), the title handed to the layout is the configured
    [defaultTitle] followed by the site's [pageTitleSuffix], each read as the
    empty string when unset. *)
Theorem untitled_page_title ctx data fonts fullOptions w :
  fm_get title data = None →
  ∃ img,
    layouts (processOgImage ctx data fonts fullOptions w).2
    = layouts w ++ [img]
    ∧ io_title img
      = (defaultTitle fullOptions ??! "")
        +:+ (pageTitleSuffix (configuration ctx) ??! "").
Proof.
  intros Hnone. exists (imageOptionsOf ctx data fonts fullOptions). split.
  - apply processOgImage_layouts.
  - simpl. unfold effectiveTitle. by rewrite Hnone.
Qed.

Lemma ogImageSlug_path ctx data s :
  slug data = Some s →
  joinSegments [argv_output ctx; ogImageSlug data +:+ ".webp"]
  = ogImageOutputPath ctx s.
Proof.
  intros Hs. unfold ogImageOutputPath, ogImageSlug. rewrite Hs. simpl.
  by rewrite string_app_assoc.
Qed.

Lemma processOgImage_Ok ctx data fonts fullOptions s w p w' :
  slug data = Some s →
  processOgImage ctx data fonts fullOptions w = (Ok p, w') →
  p = ogImageOutputPath ctx s
  ∧ ∃ webp, fs w' = <[ogImageOutputPath ctx s := webp]> (fs w).
Proof.
  intros Hs. rewrite processOgImage_run, (ogImageSlug_path _ _ _ Hs).
  destruct (rasterize _ _ _) as [webp|]; [|discriminate].
  intros [= <- <-]. split; [done|]. exists webp. simpl.
  by rewrite afterIconCheck_fs.
Qed.

(** C8. The image of a page with slug [s] goes to the output root joined
    with [s] followed by "-og-image" and ".webp": whenever the renderer
    returns an image the emission writes exactly that file and returns that
    path, an emission never writes any other file, and a later build of a
    page with the same slug returns the same path and overwrites the file,
    so that the set of files does not grow. *)
Theorem og_image_path_deterministic ctx data fonts fullOptions s :
  slug data = Some s →
  let out := ogImageOutputPath ctx s in
  (∀ w webp,
     rasterize (imageOptionsOf ctx data fonts fullOptions) fullOptions
       (iconBase64In w) = Some webp →
     ∃ w', processOgImage ctx data fonts fullOptions w = (Ok out, w')
           ∧ fs w' = <[out := webp]> (fs w))
  ∧ (∀ w r w', processOgImage ctx data fonts fullOptions w = (r, w') →
       (∀ p, r = Ok p → p = out)
       ∧ (fs w' = fs w ∨ ∃ webp, fs w' = <[out := webp]> (fs w)))
  ∧ (∀ data' fonts' fullOptions' w p1 w1 p2 w2,
       slug data' = Some s →
       processOgImage ctx data fonts fullOptions w = (Ok p1, w1) →
       processOgImage ctx data' fonts' fullOptions' w1 = (Ok p2, w2) →
       p2 = p1 ∧ dom (fs w2) = dom (fs w1)).
Proof.
  intros Hs out. split; [|split].
  - intros w webp Hr. rewrite processOgImage_run, (ogImageSlug_path _ _ _ Hs).
    simpl. rewrite Hr. eexists; split; [done|]. simpl.
    by rewrite afterIconCheck_fs.
  - intros w r w' Hrun. split.
    + intros p ->. by destruct (processOgImage_Ok _ _ _ _ _ _ _ _ Hs Hrun).
    + revert Hrun.
      rewrite processOgImage_run, (ogImageSlug_path _ _ _ Hs).
      destruct (rasterize _ _ _) as [webp|]; intros [= <- <-]; simpl;
        rewrite afterIconCheck_fs; eauto.
  - intros data' fonts' fullOptions' w p1 w1 p2 w2 Hs' Hrun1 Hrun2.
    destruct (processOgImage_Ok _ _ _ _ _ _ _ _ Hs Hrun1) as [-> [b1 Hw1]].
    destruct (processOgImage_Ok _ _ _ _ _ _ _ _ Hs' Hrun2) as [-> [b2 Hw2]].
    split; [done|]. by rewrite Hw2, Hw1, insert_insert_eq, !dom_insert_L.
Qed.

End ProcessProperties.

(** ** Meta-tag injector *)

Lemma strip_prefix_Some p s r : strip_prefix p s = Some r ↔ s = p +:+ r.
Proof.
  revert s. induction p as [|a p IH]; intros s.
  - split; [by intros [= ->] | by intros ->].
  - destruct s as [|b s]; [done|]. rewrite string_app_cons. simpl.
    destruct (Ascii.eqb_spec a b) as [->|Hne].
    + rewrite IH. split; [by intros -> | by intros [= ->]].
    + split; [done | by intros [= <- _]].
Qed.

Lemma startsWith_iff p s : startsWith p s = true ↔ ∃ r, s = p +:+ r.
Proof.
  unfold startsWith. revert s. induction p as [|a p IH]; intros s.
  - destruct s; (split; [intros _; by eexists | done]).
  - destruct s as [|b s]; simpl.
    + split; [done | by intros [r [=]]].
    + destruct (ascii_dec a b) as [->|Hne].
      * rewrite IH. split; intros [r Hr]; exists r.
        -- by rewrite string_app_cons, <- Hr.
        -- rewrite string_app_cons in Hr. by injection Hr.
      * split; [done | intros [r Hr]].
        rewrite string_app_cons in Hr. by injection Hr.
Qed.

(** The anchored pattern [^https?://] accepts the strings that begin with
    "http://" or with "https://", and no other. *)
Lemma isAbsoluteURL_iff u :
  isAbsoluteURL u = true ↔ ∃ r, u = "http://" +:+ r ∨ u = "https://" +:+ r.
Proof.
  unfold isAbsoluteURL.
  destruct (strip_prefix "http" u) as [t|] eqn:Hhttp.
  - apply strip_prefix_Some in Hhttp as ->.
    destruct (strip_prefix "s" t) as [t'|] eqn:Hs.
    + apply strip_prefix_Some in Hs as ->.
      rewrite orb_true_iff, !startsWith_iff. split.
      * intros [[r ->]|[r Hr]]; [exists r; by right|].
        cbv [String.append] in Hr. discriminate Hr.
      * intros [r [Hr|Hr]]; cbv [String.append] in Hr; [discriminate Hr|].
        injection Hr as ->. left. by exists r.
    + rewrite startsWith_iff. split.
      * intros [r ->]. exists r. by left.
      * intros [r [Hr|Hr]]; cbv [String.append] in Hr; injection Hr as ->.
        -- by exists r.
        -- discriminate Hs.
  - split; [done | intros [r [->| ->]]; discriminate Hhttp].
Qed.

Lemma staticUrl_nonempty base p : String.eqb (staticUrl base p) "" = false.
Proof. reflexivity. Qed.

Lemma truthy_userDefinedOgImagePath base data :
  truthy (userDefinedOgImagePath base data)
  = truthy (fm_get socialImage data).
Proof.
  unfold userDefinedOgImagePath.
  destruct (fm_get socialImage data) as [u|]; [|done].
  destruct (truthy (Some u)) eqn:Ht; [|done]. simpl in *.
  destruct (isAbsoluteURL u); [done|]. by rewrite staticUrl_nonempty.
Qed.

Lemma truthy_hasUserImage data :
  truthy (fm_get socialImage data) = true ↔ hasUserImage data.
Proof.
  unfold hasUserImage, truthy.
  destruct (fm_get socialImage data) as [u|].
  - rewrite negb_true_iff. destruct (String.eqb_spec u "") as [->|Hne].
    + split; [done | by intros [u [[= <-] Hu]]].
    + split; [by exists u | done].
  - split; [done | by intros [u [[=] _]]].
Qed.

Lemma userDefinedOgImagePath_resolved base data u :
  fm_get socialImage data = Some u → u ≠ "" →
  userDefinedOgImagePath base data
  = Some (if isAbsoluteURL u then u else staticUrl base u).
Proof.
  intros Hu Hne. unfold userDefinedOgImagePath. rewrite Hu. simpl.
  by destruct (String.eqb_spec u "").
Qed.

(** Away from the empty string the code follows the priority of the
    specification. *)
Lemma ogImagePath_priority base data :
  fm_get socialImage data ≠ Some "" →
  ogImagePath base data = spec_ogImagePath base data.
Proof.
  intros Hne. unfold ogImagePath, spec_ogImagePath.
  destruct (fm_get socialImage data) as [u|] eqn:Hu.
  - destruct (String.eqb_spec u "") as [->|Hu']; [done|].
    by rewrite (userDefinedOgImagePath_resolved _ _ _ Hu Hu').
  - unfold userDefinedOgImagePath. by rewrite Hu.
Qed.

Lemma externalResources_elem fullOptions ctx inj :
  inj ∈ externalResources fullOptions ctx →
  ∃ b, baseUrl (configuration ctx) = Some b ∧ b ≠ ""
       ∧ inj = ogImageHead fullOptions b.
Proof.
  unfold externalResources.
  destruct (baseUrl (configuration ctx)) as [b|]; [|by intros ?%elem_of_nil].
  simpl. destruct (String.eqb_spec b "") as [->|Hne]; simpl.
  - by intros ?%elem_of_nil.
  - intros ->%list_elem_of_singleton. by exists b.
Qed.

Lemma ogImageHead_dimensions fullOptions base data key :
  key = "og:image:width" ∨ key = "og:image:height" →
  emitsProperty key (ogImageHead fullOptions base data)
  ↔ truthy (fm_get socialImage data) = false.
Proof.
  intros Hkey. unfold emitsProperty, ogImageHead.
  rewrite truthy_userDefinedOgImagePath.
  destruct (truthy (fm_get socialImage data)); simpl.
  - split; [|done]. intros (m & Hm & _ & Hk).
    repeat (apply elem_of_cons in Hm as [->|Hm]);
      [destruct Hkey as [->| ->]; discriminate Hk ..|].
    by apply elem_of_nil in Hm.
  - split; [done|]. intros _. destruct Hkey as [->| ->].
    + exists {| meta_attr := property; meta_key := "og:image:width";
                meta_content := pretty (width fullOptions) |}.
      split; [|done]. apply elem_of_cons; by left.
    + exists {| meta_attr := property; meta_key := "og:image:height";
                meta_content := pretty (height fullOptions) |}.
      split; [|done]. apply elem_of_cons; right. apply elem_of_cons; by left.
Qed.

(** C7. Whenever the injector exists (a base URL is configured), the tags
    it emits for a page include [og:image:width], and likewise
    [og:image:height], if and only if the page has no user-supplied image
    reference, that is no non-empty [socialImage]. *)
Theorem dimensions_iff_no_user_image fullOptions ctx inj data :
  inj ∈ externalResources fullOptions ctx →
  (emitsProperty "og:image:width" (inj data) ↔ ¬ hasUserImage data)
  ∧ (emitsProperty "og:image:height" (inj data) ↔ ¬ hasUserImage data).
Proof.
  intros (b & _ & _ & ->)%externalResources_elem.
  rewrite <- truthy_hasUserImage, not_true_iff_false.
  split; apply ogImageHead_dimensions; auto.
Qed.

(** C10. A non-empty user-supplied reference is kept as it is exactly
    when it begins with "http://" or "https://"; any other one, whatever its
    form, becomes "https://" + baseUrl + "/static/" + reference, and the
    result is the page's image URL. *)
Theorem user_image_absolute_or_static base data u :
  fm_get socialImage data = Some u → u ≠ "" →
  let absolute := ∃ r, u = "http://" +:+ r ∨ u = "https://" +:+ r in
  (isAbsoluteURL u = true ↔ absolute)
  ∧ (absolute → ogImagePath base data = u)
  ∧ (¬ absolute →
     ogImagePath base data = "https://" +:+ base +:+ "/static/" +:+ u).
Proof.
  intros Hu Hne absolute. split; [apply isAbsoluteURL_iff|].
  unfold ogImagePath.
  rewrite (userDefinedOgImagePath_resolved _ _ _ Hu Hne). simpl.
  split; intros Habs.
  - apply isAbsoluteURL_iff in Habs. by rewrite Habs.
  - destruct (isAbsoluteURL u) eqn:Hab; [|done].
    by apply isAbsoluteURL_iff in Hab.
Qed.

(** C9, as amended. For a page whose [socialImage] is the empty string,
    both emitters skip the page (their test is definedness), while the
    injector's own tests on the value are truthiness tests: the reference is
    not made absolute and the width and height tags are emitted. *)
Theorem empty_social_image `{Host} fullOptions ctx fonts data :
  fm_get socialImage data = Some "" →
  (∀ w, emit_page fullOptions ctx fonts data w = (Ok [], w))
  ∧ (∀ ty w, partialEmit_event fullOptions ctx fonts
               {| type := ty; file := Some data |} w = (Ok [], w))
  ∧ (∀ pre post w, emit fullOptions ctx (pre ++ data :: post) w
                   = emit fullOptions ctx (pre ++ post) w)
  ∧ (∀ ty pre post w,
       partialEmit fullOptions ctx
         (pre ++ {| type := ty; file := Some data |} :: post) w
       = partialEmit fullOptions ctx (pre ++ post) w)
  ∧ (∀ base,
       userDefinedOgImagePath base data = Some ""
       ∧ emitsProperty "og:image:width" (ogImageHead fullOptions base data)
       ∧ emitsProperty "og:image:height" (ogImageHead fullOptions base data)).
Proof.
  intros Himg. pose proof (hasSocialImage_defined _ _ Himg) as Hs.
  split; [|split; [|split; [|split]]]; intros.
  - by apply emit_page_skip.
  - by apply partialEmit_event_skip.
  - by apply emit_skip.
  - by apply partialEmit_skip.
  - split.
    + unfold userDefinedOgImagePath. by rewrite Himg.
    + split; apply ogImageHead_dimensions; auto; by rewrite Himg.
Qed.

(** ** Font resolver and cache *)

Lemma hasChar_app c a b : hasChar c (a +:+ b) = hasChar c a || hasChar c b.
Proof.
  induction a as [|x a IH]; [done|].
  rewrite string_app_cons. simpl. by rewrite IH, orb_assoc.
Qed.

Lemma pretty_N_char_not_dash x : Ascii.eqb (pretty_N_char x) "-" = false.
Proof. unfold pretty_N_char. by repeat case_match. Qed.

Lemma pretty_N_go_dash x s :
  hasChar "-" (pretty_N_go x s) = hasChar "-" s.
Proof.
  revert s. induction (N.lt_wf_0 x) as [x _ IH]; intros s.
  destruct (decide (x = 0)%N) as [->|Hx]; [by rewrite pretty_N_go_0|].
  rewrite pretty_N_go_step by lia.
  rewrite IH by (apply N.div_lt; lia). simpl.
  by rewrite pretty_N_char_not_dash.
Qed.

(** The decimal form of a natural number has no dash. *)
Lemma pretty_N_no_dash (n : N) : hasChar "-" (pretty n) = false.
Proof.
  unfold pretty, pretty_N. case_decide; [done|]. by rewrite pretty_N_go_dash.
Qed.

(** A string [s-d] with [d] free of dashes determines [s] and [d]. *)
Lemma last_dash_split s1 s2 d1 d2 :
  hasChar "-" d1 = false → hasChar "-" d2 = false →
  s1 +:+ "-" +:+ d1 = s2 +:+ "-" +:+ d2 → s1 = s2 ∧ d1 = d2.
Proof.
  intros H1 H2. revert s2.
  induction s1 as [|a s1 IH]; intros [|b s2] Heq;
    rewrite ?string_app_cons in Heq; cbv [String.append] in Heq;
    fold String.append in Heq.
  - by injection Heq as ->.
  - injection Heq as _ ->. by rewrite hasChar_app, orb_true_r in H1.
  - injection Heq as _ <-. by rewrite hasChar_app, orb_true_r in H2.
  - injection Heq as -> Heq. by destruct (IH _ Heq) as [-> ->].
Qed.

Lemma fontCacheKey_inj f wt f' wt' :
  fontCacheKey f wt = fontCacheKey f' wt' →
  replaceAll " " "+" f = replaceAll " " "+" f' ∧ wt = wt'.
Proof.
  unfold fontCacheKey. intros Heq.
  apply last_dash_split in Heq as [Hf Hw]; auto using pretty_N_no_dash.
  split; [done|]. by apply (inj pretty).
Qed.

(** Two requests with one cache path ask for one stylesheet. *)
Lemma fontCachePath_cssUrl f wt f' wt' :
  fontCachePath f wt = fontCachePath f' wt' →
  fontCssUrl f wt = fontCssUrl f' wt'.
Proof.
  unfold fontCachePath, fontCssUrl, path_join. simpl.
  intros Heq%(inj (String.append _))%(inj (String.append _)).
  by apply fontCacheKey_inj in Heq as [-> ->].
Qed.

Section FontProperties.
Context `{Host}.

(** [fetchTtf] by cases. *)
Lemma fetchTtf_run f wt w :
  fetchTtf f wt w
  = match fs w !! fontCachePath f wt with
    | Some data => (Ok (Some data), w)
    | None =>
        let w1 := withRequest (fontCssUrl f wt) w in
        match fetch (fontCssUrl f wt) with
        | None => (Throw (FetchRejected (fontCssUrl f wt)), w1)
        | Some cssResponse =>
            match urlRegex_exec (response_text cssResponse) with
            | None => (Ok None, withConsole (fontWarning f wt cssResponse) w1)
            | Some fontUrl =>
                if String.eqb fontUrl "" then (Ok None, w1)
                else
                  match fetch fontUrl with
                  | None =>
                      (Throw (FetchRejected fontUrl), withRequest fontUrl w1)
                  | Some fontResponse =>
                      (Ok (Some (body fontResponse)),
                       withFile (fontCachePath f wt) (body fontResponse)
                         (withRequest fontUrl w1))
                  end
            end
        end
    end.
Proof.
  unfold fetchTtf, io_bind, readIfExists, httpGet.
  destruct (fs w !! fontCachePath f wt); [done|].
  destruct (fetch (fontCssUrl f wt)) as [cssResponse|]; [|done].
  destruct (urlRegex_exec (response_text cssResponse)) as [fontUrl|]; [|done].
  destruct (String.eqb fontUrl ""); [done|].
  by destruct (fetch fontUrl).
Qed.

Lemma fetchTtf_hit f wt w data :
  fs w !! fontCachePath f wt = Some data →
  fetchTtf f wt w = (Ok (Some data), w).
Proof. intros Hhit. by rewrite fetchTtf_run, Hhit. Qed.

(** Data that a resolution returns is in the cache afterwards. *)
Lemma fetchTtf_Some_cached f wt w data w1 :
  fetchTtf f wt w = (Ok (Some data), w1) →
  fs w1 !! fontCachePath f wt = Some data.
Proof.
  rewrite fetchTtf_run.
  destruct (fs w !! fontCachePath f wt) as [d|] eqn:Hc.
  { by intros [= <- <-]. }
  simpl. destruct (fetch (fontCssUrl f wt)) as [cssResponse|]; [|done].
  destruct (urlRegex_exec (response_text cssResponse)) as [fontUrl|]; [|done].
  destruct (String.eqb fontUrl ""); [done|].
  destruct (fetch fontUrl) as [fontResponse|]; [|done].
  intros [= <- <-]. simpl. apply lookup_insert_eq.
Qed.

(** C3, as amended. When a resolution of (family, weight) returns font
    data, from the cache or from the network, the next resolution of the
    same pair returns the same bytes and leaves the world as it is: it
    requests nothing from the network. *)
Theorem second_resolution_from_cache f wt w data w1 :
  fetchTtf f wt w = (Ok (Some data), w1) →
  fetchTtf f wt w1 = (Ok (Some data), w1)
  ∧ requests (fetchTtf f wt w1).2 = requests w1.
Proof.
  intros Hfirst%fetchTtf_Some_cached.
  by rewrite (fetchTtf_hit _ _ _ _ Hfirst).
Qed.

End FontProperties.

(** ** Fonts that fail to resolve *)

Section FontFailure.
Context `{Host}.

(** The failing pair: its stylesheet request is answered, and the answer
    has no font URL. *)
Variables (family : string) (weight : N) (cssResponse : Response).
Hypothesis stylesheet_served :
  fetch (fontCssUrl family weight) = Some cssResponse.
Hypothesis no_font_url : urlRegex_exec (response_text cssResponse) = None.

Lemma fetchTtf_no_font_url w :
  fs w !! fontCachePath family weight = None →
  fetchTtf family weight w
  = (Ok None,
     withConsole (fontWarning family weight cssResponse)
       (withRequest (fontCssUrl family weight) w)).
Proof.
  intros Hmiss.
  by rewrite fetchTtf_run, Hmiss, stylesheet_served, no_font_url.
Qed.

(** No resolution fills the cache entry of the failing pair, and one that
    uses that entry returns nothing. *)
Lemma fetchTtf_keeps_missing f wt w r w' :
  fs w !! fontCachePath family weight = None →
  fetchTtf f wt w = (Ok r, w') →
  fs w' !! fontCachePath family weight = None
  ∧ (fontCachePath f wt = fontCachePath family weight → r = None).
Proof.
  intros Hmiss. rewrite fetchTtf_run.
  destruct (decide (fontCachePath f wt = fontCachePath family weight))
    as [Heq|Hne].
  - rewrite Heq, Hmiss, (fontCachePath_cssUrl _ _ _ _ Heq).
    rewrite stylesheet_served, no_font_url. by intros [= <- <-].
  - destruct (fs w !! fontCachePath f wt) as [d|].
    { by intros [= <- <-]. }
    simpl. destruct (fetch (fontCssUrl f wt)) as [resp|]; [|done].
    destruct (urlRegex_exec (response_text resp)) as [fontUrl|].
    + destruct (String.eqb fontUrl ""); [by intros [= <- <-]|].
      destruct (fetch fontUrl) as [fontResponse|]; [|done].
      intros [= <- <-]. simpl. by rewrite lookup_insert_ne.
    + by intros [= <- <-].
Qed.

Lemma resolveWeights_keeps_missing f weights w entries w' :
  fs w !! fontCachePath family weight = None →
  resolveWeights f weights w = (Ok entries, w') →
  fs w' !! fontCachePath family weight = None
  ∧ ∀ e, Some e ∈ entries →
         font_name e = f
         ∧ fontCachePath f (font_weight e) ≠ fontCachePath family weight.
Proof.
  revert w entries. induction weights as [|wt weights IH];
    intros w entries Hmiss; simpl.
  - intros [= <- <-]. split; [done|]. by intros e ?%elem_of_nil.
  - intros (data & w1 & Hfetch & Hrest)%io_bind_inv_Ok.
    apply io_bind_inv_Ok in Hrest as (rest & w2 & Hrest & [= <- <-]).
    destruct (fetchTtf_keeps_missing _ _ _ _ _ Hmiss Hfetch) as [Hmiss1 Hnone].
    destruct (IH _ _ Hmiss1 Hrest) as [Hmiss2 Hentries].
    split; [done|]. intros e [Hhere|Hthere]%elem_of_cons; [|by auto].
    destruct data as [d|]; [|done]. injection Hhere as ->. simpl.
    split; [done|]. intros Heq. by specialize (Hnone Heq).
Qed.

Lemma getSatoriFonts_excludes headerFont bodyFont w fonts w' e :
  fs w !! fontCachePath family weight = None →
  getSatoriFonts headerFont bodyFont w = (Ok fonts, w') →
  e ∈ fonts → ¬ (font_name e = family ∧ font_weight e = weight).
Proof.
  intros Hmiss. unfold getSatoriFonts.
  intros (hs & w1 & Hheader & Hrest)%io_bind_inv_Ok.
  apply io_bind_inv_Ok in Hrest as (bs & w2 & Hbody & [= <- <-]).
  destruct (resolveWeights_keeps_missing _ _ _ _ _ Hmiss Hheader)
    as [Hmiss1 Hhs].
  destruct (resolveWeights_keeps_missing _ _ _ _ _ Hmiss1 Hbody)
    as [_ Hbs].
  unfold nonNull.
  intros [Hin|Hin]%elem_of_app [Hname Hweight];
    apply list_elem_of_omap in Hin as ([e'|] & Hin & [= ->]).
  - destruct (Hhs _ Hin) as [Hf Hne]. apply Hne. congruence.
  - destruct (Hbs _ Hin) as [Hf Hne]. apply Hne. congruence.
Qed.

(** C4, as amended. For a pair that is not in the cache and whose
    stylesheet request is answered, with whatever status, by a text without
    a matching font URL: the resolution logs the warning, returns nothing and
    writes no file; a font collection built from a world where the pair is
    not cached has no entry for the pair; and a header font that fails in
    this way does not fail the batch, which goes on to the body fonts and
    returns them alone. *)
Theorem unresolved_font_is_left_out w :
  fs w !! fontCachePath family weight = None →
  fetchTtf family weight w
  = (Ok None,
     withConsole (fontWarning family weight cssResponse)
       (withRequest (fontCssUrl family weight) w))
  ∧ (∀ headerFont bodyFont w0 fonts w1 e,
       fs w0 !! fontCachePath family weight = None →
       getSatoriFonts headerFont bodyFont w0 = (Ok fonts, w1) →
       e ∈ fonts → ¬ (font_name e = family ∧ font_weight e = weight))
  ∧ (∀ italic bodyFont,
       getSatoriFonts (FontRecord family (Some [weight]) italic) bodyFont w
       = io_bind
           (resolveWeights (getFontSpecificationName bodyFont)
              (fontWeights bodyFont defaultBodyWeight))
           (λ bodyFonts, io_ret (nonNull bodyFonts))
           (withConsole (fontWarning family weight cssResponse)
              (withRequest (fontCssUrl family weight) w))).
Proof.
  intros Hmiss. split; [by apply fetchTtf_no_font_url|]. split.
  - intros headerFont bodyFont w0 fonts w1 e. apply getSatoriFonts_excludes.
  - intros italic bodyFont. unfold getSatoriFonts. simpl.
    unfold io_bind at 1 2. by rewrite (fetchTtf_no_font_url _ Hmiss).
Qed.

End FontFailure.

(** ** Instances on the example host *)

Lemma custom_image_page_is_skipped_witness :
  fm_get socialImage coverPage = Some "cover.png"
  ∧ ∀ w, @emit_page exampleHost defaultOptions exampleCtx [] coverPage w
         = (Ok [], w).
Proof.
  split; [reflexivity|].
  apply (@custom_image_page_is_skipped exampleHost defaultOptions exampleCtx
           [] coverPage "cover.png").
  reflexivity.
Defined.

Lemma description_priority_witness :
  fm_get socialImage (examplePage None) = None
  ∧ ∃ img,
      layouts (@emit_page exampleHost defaultOptions exampleCtx []
                 (examplePage None) emptyWorld).2 = [img]
      ∧ io_description img = "X".
Proof.
  split; [reflexivity|].
  destruct (@description_priority exampleHost defaultOptions exampleCtx []
              (examplePage None) emptyWorld eq_refl) as [img [Hl Hd]].
  exists img. split; [exact Hl | exact Hd].
Defined.

Lemma untitled_page_title_witness :
  fm_get title (examplePage None) = None
  ∧ ∃ img,
      layouts (@processOgImage exampleHost exampleCtx (examplePage None) []
                 defaultOptions emptyWorld).2 = [img]
      ∧ io_title img = "Untitled | Site".
Proof.
  split; [reflexivity|].
  destruct (@untitled_page_title exampleHost exampleCtx (examplePage None) []
              defaultOptions emptyWorld eq_refl) as [img [Hl Ht]].
  exists img. split; [exact Hl | exact Ht].
Defined.

Lemma dimensions_iff_no_user_image_witness :
  ogImageHead defaultOptions "example.com"
    ∈ externalResources defaultOptions exampleCtx
  ∧ (emitsProperty "og:image:width"
       (ogImageHead defaultOptions "example.com" coverPage)
     ↔ ¬ hasUserImage coverPage).
Proof.
  assert (Hin : ogImageHead defaultOptions "example.com"
                ∈ externalResources defaultOptions exampleCtx).
  { apply elem_of_cons. left. reflexivity. }
  split; [exact Hin|].
  exact (proj1 (dimensions_iff_no_user_image defaultOptions exampleCtx
                  (ogImageHead defaultOptions "example.com") coverPage Hin)).
Defined.

Lemma og_image_path_deterministic_witness :
  slug (examplePage None) = Some "a/b"
  ∧ ∀ w r w',
      @processOgImage exampleHost exampleCtx (examplePage None) []
        defaultOptions w = (r, w') →
      ∀ p, r = Ok p → p = "public/a/b-og-image.webp".
Proof.
  split; [reflexivity|]. intros w r w' Hrun.
  exact (proj1 (proj1 (proj2
    (@og_image_path_deterministic exampleHost exampleCtx (examplePage None)
       [] defaultOptions "a/b" eq_refl)) w r w' Hrun)).
Defined.

Lemma user_image_absolute_or_static_witness :
  fm_get socialImage (examplePage (Some (withSocialImage "//cdn.test/x.png")))
  = Some "//cdn.test/x.png"
  ∧ "//cdn.test/x.png" ≠ ""
  ∧ isAbsoluteURL "//cdn.test/x.png" = false
  ∧ ogImagePath "example.com"
      (examplePage (Some (withSocialImage "//cdn.test/x.png")))
    = "https://example.com/static///cdn.test/x.png".
Proof.
  assert (Hne : "//cdn.test/x.png" ≠ "") by discriminate.
  split; [reflexivity|]. split; [exact Hne|]. split; [reflexivity|].
  apply (user_image_absolute_or_static "example.com"
           (examplePage (Some (withSocialImage "//cdn.test/x.png")))
           "//cdn.test/x.png" eq_refl Hne).
  intros [r [Hr|Hr]]; discriminate Hr.
Defined.

Lemma empty_social_image_witness :
  fm_get socialImage emptyImagePage = Some ""
  ∧ (∀ w, @emit_page exampleHost defaultOptions exampleCtx [] emptyImagePage w
          = (Ok [], w))
  ∧ userDefinedOgImagePath "example.com" emptyImagePage = Some "".
Proof.
  split; [reflexivity|].
  pose proof (@empty_social_image exampleHost defaultOptions exampleCtx []
                emptyImagePage eq_refl) as (Hemit & _ & _ & _ & Hinj).
  split; [exact Hemit | exact (proj1 (Hinj "example.com"))].
Defined.

Lemma second_resolution_from_cache_witness :
  let w1 := (@fetchTtf exampleHost "Inter" 700 emptyWorld).2 in
  @fetchTtf exampleHost "Inter" 700 emptyWorld = (Ok (Some interTtf), w1)
  ∧ @fetchTtf exampleHost "Inter" 700 w1 = (Ok (Some interTtf), w1)
  ∧ requests w1
    = ["https://fonts.googleapis.com/css2?family=Inter:wght@700";
       "https://fonts.gstatic.com/s/inter/v13/bold.ttf"].
Proof.
  intros w1.
  assert (Hfirst : @fetchTtf exampleHost "Inter" 700 emptyWorld
                   = (Ok (Some interTtf), w1)) by (vm_compute; reflexivity).
  split; [exact Hfirst|]. split; [|vm_compute; reflexivity].
  exact (proj1 (@second_resolution_from_cache exampleHost "Inter" 700
                  emptyWorld interTtf w1 Hfirst)).
Defined.

Lemma unresolved_font_is_left_out_witness :
  let resp := {| ok := false; statusText := "Bad Request";
                 body := String.list_byte_of_string "<html>400</html>" |} in
  exampleFetch (fontCssUrl "No Such Font" 400) = Some resp
  ∧ urlRegex_exec (response_text resp) = None
  ∧ fs emptyWorld !! fontCachePath "No Such Font" 400 = None
  ∧ (@fetchTtf exampleHost "No Such Font" 400 emptyWorld).1 = Ok None.
Proof.
  intros resp.
  assert (Hserved : @fetch exampleHost (fontCssUrl "No Such Font" 400)
                    = Some resp) by (vm_compute; reflexivity).
  assert (Hnone : urlRegex_exec (response_text resp) = None)
    by (vm_compute; reflexivity).
  assert (Hmiss : fs emptyWorld !! fontCachePath "No Such Font" 400 = None)
    by reflexivity.
  split; [exact Hserved|]. split; [exact Hnone|]. split; [exact Hmiss|].
  rewrite (proj1 (@unresolved_font_is_left_out exampleHost "No Such Font" 400
                    resp Hserved Hnone emptyWorld Hmiss)).
  reflexivity.
Defined.

(** ** Where the code departs from the specification's wording *)

(** C2, at the failing input. With a base URL configured, a page that
    is a real file and whose [socialImage] is the empty string gets an empty
    [og:image] (and the dimensions of the generated image), where the
    priority gives the generated path: the empty string is neither resolved
    against the static path nor passed over. *)
Theorem empty_social_image_og_tags :
  (λ inj, inj emptyImagePage) <$> externalResources defaultOptions exampleCtx
  = [[ {| meta_attr := property; meta_key := "og:image:width";
          meta_content := "1200" |};
       {| meta_attr := property; meta_key := "og:image:height";
          meta_content := "630" |};
       {| meta_attr := property; meta_key := "og:image";
          meta_content := "" |};
       {| meta_attr := property; meta_key := "og:image:url";
          meta_content := "" |};
       {| meta_attr := name; meta_key := "twitter:image";
          meta_content := "" |};
       {| meta_attr := property; meta_key := "og:image:type";
          meta_content := "image/png" |} ]]
  ∧ spec_ogImagePath "example.com" emptyImagePage
    = "https://example.com/a/b-og-image.webp"
  ∧ staticUrl "example.com" "" = "https://example.com/static/".
Proof. repeat split; vm_compute; reflexivity. Qed.

(** C3, as stated, fails: a resolution that returns nothing caches
    nothing, so the next one asks the network again. *)
Lemma failed_resolution_fetches_again :
  let url := "https://fonts.googleapis.com/css2?family=No+Such+Font:wght@400" in
  let first := @fetchTtf exampleHost "No Such Font" 400 emptyWorld in
  let second := @fetchTtf exampleHost "No Such Font" 400 first.2 in
  first.1 = Ok None ∧ requests first.2 = [url]
  ∧ second.1 = Ok None ∧ requests second.2 = [url; url]
  ∧ requests second.2 ≠ requests first.2.
Proof. repeat split; vm_compute; (reflexivity || discriminate). Qed.

(** C4, as stated, fails on both readings of a failed stylesheet fetch:
    a rejected request is an exception of the resolution and of the whole
    font batch, without a warning; and an answer with an error status whose
    text has a font URL is used like any other. *)
Lemma stylesheet_failure_is_not_absence :
  (@fetch exampleHost (fontCssUrl "Zzz" 400) = None
   ∧ @fetchTtf exampleHost "Zzz" 400 emptyWorld
     = (Throw (FetchRejected (fontCssUrl "Zzz" 400)),
        withRequest (fontCssUrl "Zzz" 400) emptyWorld)
   ∧ (@getSatoriFonts exampleHost (FontName "Inter") (FontName "Zzz")
        emptyWorld).1
     = Throw (FetchRejected (fontCssUrl "Zzz" 400)))
  ∧ (ok <$> @fetch exampleHost (fontCssUrl "Mirror" 400) = Some false
     ∧ (@fetchTtf exampleHost "Mirror" 400 emptyWorld).1
       = Ok (Some (String.list_byte_of_string "TTF-MIRROR-400"))
     ∧ console (@fetchTtf exampleHost "Mirror" 400 emptyWorld).2 = [])
  ∧ (@fetchTtf exampleHost "Zzz" 400 emptyWorld).1 ≠ Ok None
  ∧ (@fetchTtf exampleHost "Mirror" 400 emptyWorld).1 ≠ Ok None.
Proof. repeat split; vm_compute; (reflexivity || discriminate). Qed.

(** C5, as stated, fails: the configured default goes through
    [unescapeHTML] like the excerpt. *)
Lemma default_description_is_unescaped :
  fm_get socialImage barePage = None
  ∧ @spec_description exampleHost barePage entityOptions = "Tom &amp; Jerry"
  ∧ io_description
      <$> layouts (@emit_page exampleHost entityOptions exampleCtx []
                     barePage emptyWorld).2
    = ["Tom & Jerry"]
  ∧ io_description
      <$> layouts (@emit_page exampleHost entityOptions exampleCtx []
                     barePage emptyWorld).2
    ≠ [@spec_description exampleHost barePage entityOptions].
Proof. repeat split; vm_compute; (reflexivity || discriminate). Qed.

(** C9, as stated, fails in its last part: the empty string is not passed
    over when the URL is chosen; it is the URL, where a page without
    [socialImage] gets the generated path. *)
Lemma empty_social_image_is_chosen :
  fm_get socialImage emptyImagePage = Some ""
  ∧ ogImagePath "example.com" emptyImagePage = ""
  ∧ ogImagePath "example.com" (examplePage (Some noFrontmatter))
    = "https://example.com/a/b-og-image.webp"
  ∧ ogImagePath "example.com" emptyImagePage
    ≠ ogImagePath "example.com" (examplePage (Some noFrontmatter)).
Proof. repeat split; vm_compute; (reflexivity || discriminate). Qed.

(** * Further properties of the code *)

(** ** The stylesheet pattern *)

Lemma string_app_nil_l (s : string) : "" +:+ s = s.
Proof. reflexivity. Qed.

Ltac string_normalize :=
  repeat (rewrite string_app_cons || rewrite string_app_assoc
          || rewrite string_app_nil_l).

Lemma dot_no_terminator c :
  dot c = true → Ascii.eqb c LF = false ∧ Ascii.eqb c CR = false.
Proof.
  unfold dot. rewrite negb_true_iff, orb_false_iff. done.
Qed.

Lemma any_char_Some s c r :
  any_char s = Some (c, r) → s = String c r ∧ dot c = true.
Proof.
  destruct s as [|a s]; simpl; [done|].
  destruct (dot a) eqn:Hd; [|done]. by intros [= <- <-].
Qed.

Lemma lazy_tail_sound s t :
  lazy_tail s = Some t →
  ∃ b post, t = b +:+ "ttf" ∧ b ≠ "" ∧ s = t +:+ ")" +:+ post
            ∧ hasChar LF t = false ∧ hasChar CR t = false.
Proof.
  revert t. induction s as [|c s IH]; intros t; simpl; [done|].
  destruct (dot c) eqn:Hd; [|done].
  destruct (dot_no_terminator _ Hd) as [Hlf Hcr].
  destruct (startsWith "ttf)" s) eqn:Hs.
  - intros [= <-]. apply startsWith_iff in Hs as [post ->].
    exists (String c ""), post. simpl. rewrite Hlf, Hcr. done.
  - destruct (lazy_tail s) as [t'|]; [|done]. simpl. intros [= <-].
    destruct (IH t' eq_refl) as (b & post & -> & _ & -> & Hl & Hc).
    exists (String c b), post. simpl. rewrite Hlf, Hcr, Hl, Hc.
    by rewrite !string_app_cons.
Qed.

Lemma urlRegex_here_sound s u :
  urlRegex_here s = Some u →
  ∃ b post, u = "https://fonts" +:+ b +:+ "ttf"
            ∧ s = "url(" +:+ u +:+ ")" +:+ post
            ∧ hasChar LF u = false ∧ hasChar CR u = false.
Proof.
  unfold urlRegex_here.
  destruct (strip_prefix "url(" s) as [r1|] eqn:E1;
    cbn -[strip_prefix any_char lazy_tail String.append]; [|done].
  destruct (strip_prefix "https://fonts" r1) as [r2|] eqn:E2;
    cbn -[strip_prefix any_char lazy_tail String.append]; [|done].
  destruct (any_char r2) as [[c1 r3]|] eqn:E3;
    cbn -[strip_prefix any_char lazy_tail String.append]; [|done].
  destruct (strip_prefix "gstatic" r3) as [r4|] eqn:E4;
    cbn -[strip_prefix any_char lazy_tail String.append]; [|done].
  destruct (any_char r4) as [[c2 r5]|] eqn:E5;
    cbn -[strip_prefix any_char lazy_tail String.append]; [|done].
  destruct (strip_prefix "com/s/" r5) as [r6|] eqn:E6;
    cbn -[strip_prefix any_char lazy_tail String.append]; [|done].
  destruct (lazy_tail r6) as [t|] eqn:E7;
    cbn -[strip_prefix any_char lazy_tail String.append]; [|done].
  intros [= <-].
  apply strip_prefix_Some in E1 as ->. apply strip_prefix_Some in E2 as ->.
  apply any_char_Some in E3 as [-> Hd1]. apply strip_prefix_Some in E4 as ->.
  apply any_char_Some in E5 as [-> Hd2]. apply strip_prefix_Some in E6 as ->.
  apply lazy_tail_sound in E7 as (b & post & -> & _ & -> & Hl & Hc).
  destruct (dot_no_terminator _ Hd1) as [Hl1 Hc1].
  destruct (dot_no_terminator _ Hd2) as [Hl2 Hc2].
  exists (String c1 ("gstatic" +:+ String c2 ("com/s/" +:+ b))), post.
  split; [|split; [|split]].
  - by string_normalize.
  - by string_normalize.
  - string_normalize. simpl. by rewrite Hl1, Hl2.
  - string_normalize. simpl. by rewrite Hc1, Hc2.
Qed.

Lemma urlRegex_exec_here s u :
  urlRegex_here s = Some u → urlRegex_exec s = Some u.
Proof. intros Hh. destruct s; cbn -[urlRegex_here]; by rewrite Hh. Qed.

Lemma urlRegex_exec_app pre s :
  is_Some (urlRegex_exec s) → is_Some (urlRegex_exec (pre +:+ s)).
Proof.
  intros Hs. induction pre as [|c pre IH]; [done|].
  rewrite string_app_cons. cbn -[urlRegex_here].
  by destruct (urlRegex_here (String c (pre +:+ s))).
Qed.

Lemma lazy_tail_step c s :
  dot c = true →
  lazy_tail (String c s)
  = if startsWith "ttf)" s then Some (String c "ttf")
    else String c <$> lazy_tail s.
Proof. intros Hd. cbn -[startsWith]. by rewrite Hd. Qed.

Lemma lazy_tail_complete mid post :
  hasChar LF mid = false → hasChar CR mid = false →
  is_Some (lazy_tail (mid +:+ ".ttf)" +:+ post)).
Proof.
  induction mid as [|c mid IH]; intros Hl Hc.
  - rewrite string_app_nil_l, string_app_cons, lazy_tail_step by done.
    assert (startsWith "ttf)" ("ttf)" +:+ post) = true) as ->
      by (apply startsWith_iff; by exists post).
    by eexists.
  - simpl in Hl, Hc. apply orb_false_iff in Hl as [Hl1 Hl].
    apply orb_false_iff in Hc as [Hc1 Hc].
    rewrite string_app_cons, lazy_tail_step
      by (unfold dot; by rewrite Hl1, Hc1).
    destruct (startsWith "ttf)" _); [by eexists|].
    destruct (IH Hl Hc) as [t ->]. by eexists.
Qed.

Lemma any_char_dot c s : dot c = true → any_char (String c s) = Some (c, s).
Proof. simpl. by intros ->. Qed.

Lemma urlRegex_here_gstatic rest :
  urlRegex_here ("url(https://fonts.gstatic.com/s/" +:+ rest)
  = (λ t, "https://fonts.gstatic.com/s/" +:+ t) <$> lazy_tail rest.
Proof.
  unfold urlRegex_here. string_normalize.
  cbn -[lazy_tail String.append any_char].
  rewrite any_char_dot by reflexivity.
  cbn -[lazy_tail String.append any_char].
  rewrite any_char_dot by reflexivity.
  cbn -[lazy_tail String.append any_char].
  by destruct (lazy_tail rest).
Qed.

(** X1. The URL taken from a stylesheet stands in it between [url(] and [)],
    begins with "https://fonts", ends with "ttf" and has no line break; it
    is never empty, so the guard on an empty capture never fires. *)
Theorem stylesheet_url_is_quoted css u :
  urlRegex_exec css = Some u →
  (∃ pre post, css = pre +:+ "url(" +:+ u +:+ ")" +:+ post)
  ∧ (∃ b, u = "https://fonts" +:+ b +:+ "ttf")
  ∧ hasChar LF u = false ∧ hasChar CR u = false
  ∧ String.eqb u "" = false.
Proof.
  revert u. induction css as [|c css IH]; intros u; cbn -[urlRegex_here].
  - done.
  - destruct (urlRegex_here (String c css)) as [v|] eqn:Hhere.
    + intros [= ->].
      apply urlRegex_here_sound in Hhere as (b & post & Hu & Hs & Hl & Hc).
      split; [by exists "", post|]. split; [by exists b|].
      split; [done|]. split; [done|]. by rewrite Hu.
    + intros Hrest. destruct (IH _ Hrest) as ([pre [post ->]] & Hrem).
      split; [|done]. by exists (String c pre), post.
Qed.

(** X2. A stylesheet that has a font URL of the expected form on one line
    always yields a URL; a resolution that reads such a stylesheet logs no
    warning. *)
Theorem stylesheet_with_font_url_matches `{Host} pre mid post :
  hasChar LF mid = false → hasChar CR mid = false →
  let css :=
    pre +:+ "url(https://fonts.gstatic.com/s/" +:+ mid +:+ ".ttf)" +:+ post in
  is_Some (urlRegex_exec css)
  ∧ ∀ f wt w r w' cssResponse,
      fetch (fontCssUrl f wt) = Some cssResponse →
      response_text cssResponse = css →
      fetchTtf f wt w = (r, w') → console w' = console w.
Proof.
  intros Hl Hc css.
  assert (Hsome : is_Some (urlRegex_exec css)).
  { apply urlRegex_exec_app. destruct (lazy_tail_complete mid post Hl Hc)
      as [t Ht].
    exists ("https://fonts.gstatic.com/s/" +:+ t).
    apply urlRegex_exec_here. by rewrite urlRegex_here_gstatic, Ht. }
  split; [done|]. intros f wt w r w' cssResponse Hfetch Htext.
  rewrite fetchTtf_run, Hfetch, Htext.
  destruct Hsome as [u ->].
  destruct (fs w !! fontCachePath f wt); [by intros [= <- <-]|]. simpl.
  destruct (String.eqb u ""); [by intros [= <- <-]|].
  destruct (fetch u); by intros [= <- <-].
Qed.

(** ** The font cache *)

Lemma cacheStep_refl w : cacheStep w w.
Proof. by split; [|split; [|split]]. Qed.

Lemma cacheStep_trans w1 w2 w3 :
  cacheStep w1 w2 → cacheStep w2 w3 → cacheStep w1 w3.
Proof.
  intros (Hf1 & Hc1 & Hr1 & Hl1) (Hf2 & Hc2 & Hr2 & Hl2).
  split; [|split; [|split]]; [by etrans..|congruence].
Qed.

Lemma cacheStep_withRequest u w : cacheStep w (withRequest u w).
Proof.
  split; [|split; [|split]]; simpl; [done..|by apply prefix_app_r|done].
Qed.

Lemma cacheStep_withConsole e w : cacheStep w (withConsole e w).
Proof.
  split; [|split; [|split]]; simpl; [done|by apply prefix_app_r|done..].
Qed.

Lemma cacheStep_withFile p d w :
  fs w !! p = None → cacheStep w (withFile p d w).
Proof.
  intros Hp.
  split; [|split; [|split]]; simpl; [by apply insert_subseteq|done..].
Qed.

Section FontCache.
Context `{Host}.

Lemma fetchTtf_cacheStep f wt w r w' :
  fetchTtf f wt w = (r, w') → cacheStep w w'.
Proof.
  rewrite fetchTtf_run.
  destruct (fs w !! fontCachePath f wt) as [d|] eqn:Hmiss.
  { intros [= <- <-]. apply cacheStep_refl. }
  simpl. destruct (fetch (fontCssUrl f wt)) as [resp|].
  2: { intros [= <- <-]. apply cacheStep_withRequest. }
  destruct (urlRegex_exec (response_text resp)) as [u|].
  2: { intros [= <- <-]. eapply cacheStep_trans;
         [apply cacheStep_withRequest | apply cacheStep_withConsole]. }
  destruct (String.eqb u "").
  { intros [= <- <-]. apply cacheStep_withRequest. }
  destruct (fetch u) as [fontResponse|]; intros [= <- <-].
  - eapply cacheStep_trans; [apply cacheStep_withRequest|].
    eapply cacheStep_trans; [apply cacheStep_withRequest|].
    by apply cacheStep_withFile.
  - eapply cacheStep_trans; apply cacheStep_withRequest.
Qed.

(** X3. A resolution never overwrites or removes a file and never calls the
    renderer: either the file system is unchanged, or the pair was not
    cached, font data is returned and the only change is the new cache
    entry holding that data. *)
Theorem font_cache_is_append_only f wt w r w' :
  fetchTtf f wt w = (r, w') →
  fs w ⊆ fs w' ∧ layouts w' = layouts w
  ∧ (fs w' = fs w
     ∨ ∃ data, fs w !! fontCachePath f wt = None ∧ r = Ok (Some data)
               ∧ fs w' = <[fontCachePath f wt := data]> (fs w)).
Proof.
  intros Hrun. destruct (fetchTtf_cacheStep _ _ _ _ _ Hrun) as (Hfs & _ & _ & Hl).
  split; [done|]. split; [done|]. revert Hrun. rewrite fetchTtf_run.
  destruct (fs w !! fontCachePath f wt) as [d|] eqn:Hmiss.
  { intros [= <- <-]. by left. }
  simpl. destruct (fetch (fontCssUrl f wt)) as [resp|].
  2: { intros [= <- <-]. by left. }
  destruct (urlRegex_exec (response_text resp)) as [u|].
  2: { intros [= <- <-]. by left. }
  destruct (String.eqb u ""); [intros [= <- <-]; by left|].
  destruct (fetch u) as [fontResponse|]; intros [= <- <-]; [|by left].
  right. by exists (body fontResponse).
Qed.


End FontCache.

(** ** The font collection *)

Section FontCollection.
Context `{Host}.

Lemma resolveWeights_cacheStep f ws w r w' :
  resolveWeights f ws w = (r, w') → cacheStep w w'.
Proof.
  revert w r w'. induction ws as [|wt ws IH]; intros w r w'; simpl.
  - intros [= <- <-]. apply cacheStep_refl.
  - unfold io_bind at 1.
    destruct (fetchTtf f wt w) as [[data|e] w1] eqn:Hfetch.
    + apply fetchTtf_cacheStep in Hfetch. unfold io_bind.
      destruct (resolveWeights f ws w1) as [[es|e] w2] eqn:Hrest;
        intros [= <- <-]; eapply cacheStep_trans; eauto.
    + apply fetchTtf_cacheStep in Hfetch. by intros [= <- <-].
Qed.

Lemma resolvedFor_mono f w1 w2 wt e :
  fs w1 ⊆ fs w2 → resolvedFor f w1 wt e → resolvedFor f w2 wt e.
Proof.
  intros Hsub. destruct e as [e|]; [|done]. intros (? & ? & Hc).
  repeat split; [done..|]. by eapply lookup_weaken.
Qed.

Lemma resolveWeights_resolved f ws w es w' :
  resolveWeights f ws w = (Ok es, w') → Forall2 (resolvedFor f w') ws es.
Proof.
  revert w es w'. induction ws as [|wt ws IH]; intros w es w'; simpl.
  - intros [= <- <-]. constructor.
  - intros (data & w1 & Hfetch & Hrest)%io_bind_inv_Ok.
    apply io_bind_inv_Ok in Hrest as (rest & w2 & Hrest & [= <- <-]).
    constructor; [|by eapply IH].
    destruct data as [d|]; [|done].
    apply fetchTtf_Some_cached in Hfetch.
    apply resolveWeights_cacheStep in Hrest as [Hsub _].
    repeat split; [done..|]. by eapply lookup_weaken.
Qed.

Lemma nonNull_resolved f w' ws es :
  Forall2 (resolvedFor f w') ws es →
  font_weight <$> nonNull es `sublist_of` ws
  ∧ Forall (λ e, font_name e = f
                 ∧ fs w' !! fontCachePath f (font_weight e)
                   = Some (font_data e)) (nonNull es).
Proof.
  unfold nonNull. induction 1 as [|wt e ws es He _ [IHs IHf]]; simpl.
  - split; constructor.
  - destruct e as [e|]; simpl.
    + destruct He as (Hn & Hw & Hc). split.
      * rewrite Hw. by constructor.
      * constructor; [|done]. by rewrite Hw.
    + split; [by constructor|done].
Qed.

Lemma getSatoriFonts_inv headerFont bodyFont w fonts w' :
  getSatoriFonts headerFont bodyFont w = (Ok fonts, w') →
  ∃ hs bs w1,
    fonts = nonNull hs ++ nonNull bs
    ∧ Forall2 (resolvedFor (getFontSpecificationName headerFont) w1)
        (fontWeights headerFont defaultHeaderWeight) hs
    ∧ Forall2 (resolvedFor (getFontSpecificationName bodyFont) w')
        (fontWeights bodyFont defaultBodyWeight) bs
    ∧ cacheStep w w1 ∧ cacheStep w1 w'.
Proof.
  unfold getSatoriFonts.
  intros (hs & w1 & Hheader & Hrest)%io_bind_inv_Ok.
  apply io_bind_inv_Ok in Hrest as (bs & w2 & Hbody & [= <- <-]).
  exists hs, bs, w1. split; [done|].
  split; [by eapply resolveWeights_resolved|].
  split; [by eapply resolveWeights_resolved|].
  split; by eapply resolveWeights_cacheStep.
Qed.

(** X6. The collection lists the header fonts before the body fonts; each
    part carries its font's name and its weights are a subsequence, in
    order, of the weights asked for (the given ones, or 700 for a bare
    header name and 400 for a bare body name). *)
Theorem font_collection_order headerFont bodyFont w fonts w' :
  getSatoriFonts headerFont bodyFont w = (Ok fonts, w') →
  ∃ hs bs,
    fonts = hs ++ bs
    ∧ Forall (λ e, font_name e = getFontSpecificationName headerFont) hs
    ∧ font_weight <$> hs `sublist_of` fontWeights headerFont defaultHeaderWeight
    ∧ Forall (λ e, font_name e = getFontSpecificationName bodyFont) bs
    ∧ font_weight <$> bs `sublist_of` fontWeights bodyFont defaultBodyWeight.
Proof.
  intros (hs & bs & w1 & -> & Hh & Hb & _)%getSatoriFonts_inv.
  apply nonNull_resolved in Hh as [Hhs Hhf].
  apply nonNull_resolved in Hb as [Hbs Hbf].
  exists (nonNull hs), (nonNull bs). repeat split; [|done| |done].
  - eapply Forall_impl; [exact Hhf|]. by intros e [? _].
  - eapply Forall_impl; [exact Hbf|]. by intros e [? _].
Qed.

(** X7. Every font of the collection is backed by the cache: when the batch
    returns, the cache entry of the font's name and weight holds exactly the
    bytes handed to the renderer; and the batch has kept every file that
    existed before. *)
Theorem font_collection_is_cached headerFont bodyFont w fonts w' :
  getSatoriFonts headerFont bodyFont w = (Ok fonts, w') →
  fs w ⊆ fs w'
  ∧ ∀ e, e ∈ fonts →
         fs w' !! fontCachePath (font_name e) (font_weight e)
         = Some (font_data e).
Proof.
  intros (hs & bs & w1 & -> & Hh & Hb & Hs1 & Hs2)%getSatoriFonts_inv.
  split; [by etrans; [apply Hs1 | apply Hs2]|].
  apply nonNull_resolved in Hh as [_ Hhf].
  apply nonNull_resolved in Hb as [_ Hbf].
  rewrite Forall_forall in Hhf, Hbf.
  intros e [Hin|Hin]%elem_of_app.
  - destruct (Hhf _ Hin) as [-> Hc]. eapply lookup_weaken; [exact Hc|].
    apply Hs2.
  - by destruct (Hbf _ Hin) as [-> Hc].
Qed.

Lemma resolveWeights_warm f ws w :
  (∀ wt, wt ∈ ws → is_Some (fs w !! fontCachePath f wt)) →
  ∃ es, resolveWeights f ws w = (Ok (Some <$> es), w)
        ∧ font_weight <$> es = ws
        ∧ Forall (λ e, font_name e = f) es.
Proof.
  induction ws as [|wt ws IH]; intros Hall; simpl.
  - by exists [].
  - destruct (Hall wt) as [d Hd]; [by apply elem_of_cons; left|].
    destruct IH as (es & Hes & Hws & Hn).
    { intros wt' Hin. apply Hall. apply elem_of_cons. by right. }
    exists ({| font_name := f; font_data := d; font_weight := wt |} :: es).
    unfold io_bind. rewrite (fetchTtf_hit _ _ _ _ Hd), Hes. simpl.
    split; [done|]. split; [by f_equal | by constructor].
Qed.

Lemma nonNull_Some {A} (xs : list A) : nonNull (Some <$> xs) = xs.
Proof. unfold nonNull. induction xs; simpl; [done | by f_equal]. Qed.

(** X8. With every requested pair in the cache, the batch needs no network:
    it returns one font per requested weight, header weights first, and
    leaves the world as it is, whatever the network would answer. *)
Theorem warm_cache_needs_no_network headerFont bodyFont w :
  (∀ wt, wt ∈ fontWeights headerFont defaultHeaderWeight →
     is_Some (fs w !! fontCachePath (getFontSpecificationName headerFont) wt)) →
  (∀ wt, wt ∈ fontWeights bodyFont defaultBodyWeight →
     is_Some (fs w !! fontCachePath (getFontSpecificationName bodyFont) wt)) →
  ∃ fonts,
    getSatoriFonts headerFont bodyFont w = (Ok fonts, w)
    ∧ font_weight <$> fonts
      = fontWeights headerFont defaultHeaderWeight
        ++ fontWeights bodyFont defaultBodyWeight.
Proof.
  intros Hh Hb.
  destruct (resolveWeights_warm _ _ _ Hh) as (hs & Hhs & Hhw & _).
  destruct (resolveWeights_warm _ _ _ Hb) as (bs & Hbs & Hbw & _).
  exists (hs ++ bs). unfold getSatoriFonts, io_bind.
  rewrite Hhs, Hbs. simpl. rewrite !nonNull_Some.
  split; [done|]. by rewrite fmap_app, Hhw, Hbw.
Qed.

End FontCollection.


(** ** The emitters as a whole *)

Lemma pageStep_refl fonts w : pageStep fonts w w.
Proof.
  split; [done|]. split; [done|]. split; [done|].
  exists []. by rewrite app_nil_r.
Qed.

Lemma pageStep_trans fonts w1 w2 w3 :
  pageStep fonts w1 w2 → pageStep fonts w2 w3 → pageStep fonts w1 w3.
Proof.
  intros (Hf1 & Hc1 & Hr1 & imgs1 & Hl1 & Hi1)
         (Hf2 & Hc2 & Hr2 & imgs2 & Hl2 & Hi2).
  split; [by etrans|]. split; [by etrans|]. split; [congruence|].
  exists (imgs1 ++ imgs2). split.
  - by rewrite Hl2, Hl1, app_assoc.
  - by apply Forall_app.
Qed.

Lemma for_of_preserves {A B} (R : relation World)
    (body : A → IO (list B)) xs :
  (∀ w, R w w) → (∀ w1 w2 w3, R w1 w2 → R w2 w3 → R w1 w3) →
  (∀ x w r w', body x w = (r, w') → R w w') →
  ∀ w r w', for_of body xs w = (r, w') → R w w'.
Proof.
  intros Hrefl Htrans Hbody.
  induction xs as [|x xs IH]; intros w r w'; simpl.
  - by intros [= <- <-].
  - unfold io_bind at 1. destruct (body x w) as [[ys|e] w1] eqn:Hx.
    + apply Hbody in Hx. unfold io_bind.
      destruct (for_of body xs w1) as [[zs|e] w2] eqn:Hrest;
        intros [= <- <-]; eauto.
    + apply Hbody in Hx. by intros [= <- <-].
Qed.

Lemma io_bind_ext {A B} (m m' : IO A) (k k' : A → IO B) w :
  m w = m' w → (∀ a w1, k a w1 = k' a w1) →
  io_bind m k w = io_bind m' k' w.
Proof.
  intros Hm Hk. unfold io_bind. rewrite Hm.
  by destruct (m' w) as [[a|e] w1].
Qed.


Section Emitters.
Context `{Host}.

Lemma afterIconCheck_console w : console w `prefix_of` console (afterIconCheck w).
Proof.
  unfold afterIconCheck. destruct (fs w !! iconPath); [done|].
  by apply prefix_app_r.
Qed.

Lemma afterIconCheck_requests w : requests (afterIconCheck w) = requests w.
Proof. unfold afterIconCheck. by destruct (fs w !! iconPath). Qed.

Lemma processOgImage_pageStep ctx data fonts fullOptions w r w' :
  processOgImage ctx data fonts fullOptions w = (r, w') →
  pageStep fonts w w'.
Proof.
  rewrite processOgImage_run.
  destruct (rasterize _ _ _) as [webp|]; intros [= <- <-];
    unfold pageStep; simpl;
    rewrite ?afterIconCheck_fs, ?afterIconCheck_requests,
      ?afterIconCheck_layouts.
  - split; [apply dom_insert_subseteq|].
    split; [apply afterIconCheck_console|]. split; [done|].
    eexists. split; [done|]. by repeat constructor.
  - split; [done|].
    split; [apply afterIconCheck_console|]. split; [done|].
    eexists. split; [done|]. by repeat constructor.
Qed.

Lemma emit_page_pageStep fullOptions ctx fonts data w r w' :
  emit_page fullOptions ctx fonts data w = (r, w') → pageStep fonts w w'.
Proof.
  unfold emit_page. destruct (hasSocialImage data).
  - intros [= <- <-]. apply pageStep_refl.
  - unfold io_bind.
    destruct (processOgImage ctx data fonts fullOptions w) as [[p|e] w1]
      eqn:Hp; apply processOgImage_pageStep in Hp; by intros [= <- <-].
Qed.

Lemma for_of_pageStep fullOptions ctx fonts content w r w' :
  for_of (emit_page fullOptions ctx fonts) content w = (r, w') →
  pageStep fonts w w'.
Proof.
  apply (for_of_preserves (pageStep fonts)).
  - apply pageStep_refl.
  - apply pageStep_trans.
  - intros x w0 r0 w0'. apply emit_page_pageStep.
Qed.

Lemma loadFonts_cacheStep ctx w r w' :
  loadFonts ctx w = (r, w') → cacheStep w w'.
Proof.
  unfold loadFonts, getSatoriFonts. unfold io_bind at 1.
  destruct (resolveWeights _ _ w) as [[hs|e] w1] eqn:Hh;
    apply resolveWeights_cacheStep in Hh; [|by intros [= <- <-]].
  unfold io_bind.
  destruct (resolveWeights _ _ w1) as [[bs|e] w2] eqn:Hb;
    apply resolveWeights_cacheStep in Hb; intros [= <- <-];
    by eapply cacheStep_trans.
Qed.

Lemma partialEmit_event_changed fullOptions ctx fonts e w :
  partialEmit_event fullOptions ctx fonts e w
  = match changedData e with
    | Some data => emit_page fullOptions ctx fonts data w
    | None => (Ok [], w)
    end.
Proof.
  unfold partialEmit_event, changedData, emit_page.
  destruct (file e) as [data|]; [|by destruct (type e)].
  destruct (type e); try done. by destruct (hasSocialImage data).
Qed.

Lemma for_of_changed fullOptions ctx fonts events w :
  for_of (partialEmit_event fullOptions ctx fonts) events w
  = for_of (emit_page fullOptions ctx fonts) (omap changedData events) w.
Proof.
  revert w. induction events as [|e events IH]; intros w; [done|].
  simpl. destruct (changedData e) as [data|] eqn:Hc; simpl.
  - apply io_bind_ext; [by rewrite partialEmit_event_changed, Hc|].
    intros ys w1. apply io_bind_ext; [apply IH | done].
  - rewrite <- IH.
    rewrite (io_bind_Ok _ _ w [] w)
      by (by rewrite partialEmit_event_changed, Hc).
    apply io_bind_ret_r.
Qed.

(** X9. The incremental build is the full build of the pages its events add
    or change, in the order of the events: events without a file and
    [delete] events contribute nothing. *)
Theorem partialEmit_is_emit_of_changed fullOptions ctx events w :
  partialEmit fullOptions ctx events w
  = emit fullOptions ctx (omap changedData events) w.
Proof.
  unfold partialEmit, emit, io_bind.
  destruct (loadFonts ctx w) as [[fonts|e] w1]; [|done].
  apply for_of_changed.
Qed.

(** X10. A batch of [delete] events removes nothing: only the fonts are
    loaded, no page is rendered, nothing is yielded, and every file that
    existed before, the deleted pages' images included, is still there with
    its content. *)
Theorem delete_events_keep_images fullOptions ctx events w r w' :
  Forall (λ e, type e = delete) events →
  partialEmit fullOptions ctx events w = (r, w') →
  (∀ p image, fs w !! p = Some image → fs w' !! p = Some image)
  ∧ layouts w' = layouts w
  ∧ (r = Ok [] ∨ ∃ e, r = Throw e ∧ loadFonts ctx w = (Throw e, w')).
Proof.
  intros Hdel. unfold partialEmit, io_bind.
  destruct (loadFonts ctx w) as [[fonts|e] w1] eqn:Hfonts.
  - rewrite for_of_changed.
    assert (omap changedData events = []) as ->.
    { induction Hdel as [|e events He _ IH]; [done|]. simpl.
      unfold changedData at 1. by rewrite He. }
    intros [= <- <-].
    destruct (loadFonts_cacheStep _ _ _ _ Hfonts) as (Hfs & _ & _ & Hl).
    split; [|by auto]. intros p image Hp. by eapply lookup_weaken.
  - intros [= <- <-].
    destruct (loadFonts_cacheStep _ _ _ _ Hfonts) as (Hfs & _ & _ & Hl).
    split; [|by eauto]. intros p image Hp. by eapply lookup_weaken.
Qed.

(** X11. What a run of the full build does to the world: the fonts are loaded
    first, and a failure there ends the run before any page; after that no
    page uses the network, every call of the renderer gets the fonts loaded
    at the start, and no file is removed. *)
Theorem emit_loads_fonts_once fullOptions ctx content w r w' :
  emit fullOptions ctx content w = (r, w') →
  ∃ loaded w1,
    loadFonts ctx w = (loaded, w1) ∧ cacheStep w w1
    ∧ match loaded with
      | Ok fonts => pageStep fonts w1 w'
      | Throw e => r = Throw e ∧ w' = w1
      end.
Proof.
  unfold emit, io_bind.
  destruct (loadFonts ctx w) as [[fonts|e] w1] eqn:Hfonts; intros Hrun.
  - exists (Ok fonts), w1. split; [done|].
    split; [by eapply loadFonts_cacheStep|].
    by eapply for_of_pageStep.
  - injection Hrun as <- <-. exists (Throw e), w1.
    split; [done|]. split; [by eapply loadFonts_cacheStep|done].
Qed.

(** X12. Neither emitter ever removes a file, and each only extends the
    console, the request trace and the list of renderer calls. *)
Theorem emitters_only_add fullOptions ctx content events :
  let grows (w w' : World) :=
    dom (fs w) ⊆ dom (fs w')
    ∧ console w `prefix_of` console w'
    ∧ requests w `prefix_of` requests w'
    ∧ layouts w `prefix_of` layouts w' in
  (∀ w r w', emit fullOptions ctx content w = (r, w') → grows w w')
  ∧ (∀ w r w', partialEmit fullOptions ctx events w = (r, w') → grows w w').
Proof.
  intros grows.
  assert (Hemit : ∀ content w r w',
            emit fullOptions ctx content w = (r, w') → grows w w').
  { clear content. intros content w r w'. unfold emit, io_bind.
    destruct (loadFonts ctx w) as [[fonts|e] w1] eqn:Hfonts;
      apply loadFonts_cacheStep in Hfonts as (Hfs & Hc & Hr & Hl).
    - intros Hrun.
      apply for_of_pageStep in Hrun as (Hd & Hc2 & Hr2 & imgs & Hl2 & _).
      split; [etrans; [by apply subseteq_dom|done]|].
      split; [by etrans|]. split; [by rewrite Hr2|].
      rewrite Hl2, Hl. by apply prefix_app_r.
    - intros [= <- <-]. split; [by apply subseteq_dom|].
      split; [done|]. split; [done|]. by rewrite Hl. }
  split; [apply Hemit|]. intros w r w' Hrun.
  apply (Hemit (omap changedData events) w r w').
  revert Hrun. unfold partialEmit, emit, io_bind.
  destruct (loadFonts ctx w) as [[fonts|e] w1]; [|done].
  by rewrite for_of_changed.
Qed.

End Emitters.

Section EmitterRuns.
Context `{Host}.

Lemma for_of_emit_total fullOptions ctx fonts content w :
  (∀ img icon, is_Some (rasterize img fullOptions icon)) →
  ∃ w',
    for_of (emit_page fullOptions ctx fonts) content w
    = (Ok (outputPathOf ctx
             <$> filter (λ d, hasSocialImage d = false) content), w')
    ∧ ∀ d, d ∈ content → hasSocialImage d = false →
           outputPathOf ctx d ∈ dom (fs w').
Proof.
  intros Htotal. revert w.
  induction content as [|d content IH]; intros w; simpl.
  - exists w. split; [done|]. by intros d ?%elem_of_nil.
  - unfold emit_page at 1. destruct (hasSocialImage d) eqn:Hd.
    + destruct (IH w) as (w' & Hrun & Hfiles). exists w'.
      rewrite filter_cons_False by (by rewrite Hd).
      rewrite (io_bind_Ok _ _ w [] w) by done.
      rewrite io_bind_ret_r. split; [done|].
      intros d' [->|Hin]%elem_of_cons Hd'; [congruence | by auto].
    + rewrite filter_cons_True by done.
      pose proof (processOgImage_run ctx d fonts fullOptions w) as Hrun.
      simpl in Hrun.
      destruct (Htotal (imageOptionsOf ctx d fonts fullOptions)
                  (iconBase64In w)) as [webp Hwebp].
      rewrite Hwebp in Hrun. fold (outputPathOf ctx d) in Hrun.
      set (w1 := withFile (outputPathOf ctx d) webp
                   (withLayout (imageOptionsOf ctx d fonts fullOptions)
                      (afterIconCheck w))) in *.
      destruct (IH w1) as (w' & Hrest & Hfiles). exists w'.
      unfold io_bind at 1. unfold io_bind at 1. rewrite Hrun.
      unfold io_ret at 1. unfold io_bind. rewrite Hrest. simpl.
      split; [done|].
      intros d' [->|Hin]%elem_of_cons Hd'; [|by auto].
      apply for_of_pageStep in Hrest as [Hdom _]. apply Hdom.
      subst w1. simpl. apply elem_of_dom. rewrite lookup_insert_eq. by eexists.
Qed.

(** X13. When the fonts load and the renderer never fails, the full build
    yields the output path of every page without [socialImage], in the order
    of its input, and each of those paths is a file afterwards. *)
Theorem emit_yields_every_page fullOptions ctx content w fonts w1 :
  loadFonts ctx w = (Ok fonts, w1) →
  (∀ img icon, is_Some (rasterize img fullOptions icon)) →
  ∃ w',
    emit fullOptions ctx content w
    = (Ok (outputPathOf ctx
             <$> filter (λ d, hasSocialImage d = false) content), w')
    ∧ ∀ d, d ∈ content → hasSocialImage d = false →
           outputPathOf ctx d ∈ dom (fs w').
Proof.
  intros Hfonts Htotal.
  destruct (for_of_emit_total fullOptions ctx fonts content w1 Htotal)
    as (w' & Hrun & Hfiles).
  exists w'. split; [|done]. unfold emit. by rewrite (io_bind_Ok _ _ _ _ _ Hfonts).
Qed.



End EmitterRuns.

(** ** File extensions and the image type *)

Lemma extChar_iff c :
  extChar c = true
  ↔ Ascii.eqb c "." = false ∧ Ascii.eqb c "/" = false
    ∧ Ascii.eqb c "?" = false ∧ Ascii.eqb c "#" = false.
Proof.
  unfold extChar. rewrite negb_true_iff, !orb_false_iff. tauto.
Qed.

(** A string of extension characters: none of [. / ? #]. *)
Lemma extension_run_sound s e :
  extension_run s = Some e →
  hasChar "." e = false ∧ hasChar "/" e = false
  ∧ hasChar "?" e = false ∧ hasChar "#" e = false
  ∧ ∃ post, s = e +:+ post
            ∧ (post = "" ∨ startsWith "?" post = true
               ∨ startsWith "#" post = true).
Proof.
  revert e. induction s as [|c s IH]; intros e; simpl.
  - intros [= <-]. repeat split; try done. exists "". by auto.
  - destruct (extChar c) eqn:Hc.
    + destruct (extension_run s) as [e'|]; [|done]. simpl. intros [= <-].
      destruct (IH e' eq_refl) as (H1 & H2 & H3 & H4 & post & -> & Hpost).
      apply extChar_iff in Hc as (C1 & C2 & C3 & C4). simpl.
      rewrite C1, C2, C3, C4, H1, H2, H3, H4.
      repeat split; try done. by exists post.
    + destruct (Ascii.eqb c "?" || Ascii.eqb c "#") eqn:Hq; [|done].
      intros [= <-]. repeat split; try done. exists (String c s).
      split; [done|]. right. apply orb_true_iff in Hq as [Hq|Hq];
        apply Ascii.eqb_eq in Hq as ->; [left|right];
        apply startsWith_iff; by exists s.
Qed.

Lemma extension_run_blocked s rest :
  hasChar "?" s = false → hasChar "#" s = false →
  extension_run (s +:+ String "." rest) = None.
Proof.
  induction s as [|c s IH]; intros Hq Hh; [done|].
  simpl in Hq, Hh. apply orb_false_iff in Hq as [Hq1 Hq].
  apply orb_false_iff in Hh as [Hh1 Hh].
  rewrite string_app_cons. simpl. rewrite (IH Hq Hh), Hq1, Hh1. simpl.
  by destruct (extChar c).
Qed.

Lemma extension_run_all e :
  hasChar "." e = false → hasChar "/" e = false →
  hasChar "?" e = false → hasChar "#" e = false →
  extension_run e = Some e.
Proof.
  induction e as [|c e IH]; simpl; [done|].
  intros [C1 H1]%orb_false_iff [C2 H2]%orb_false_iff
         [C3 H3]%orb_false_iff [C4 H4]%orb_false_iff.
  assert (extChar c = true) as -> by (by apply extChar_iff).
  by rewrite IH.
Qed.

Lemma getFileExtension_suffix p e :
  hasChar "?" p = false → hasChar "#" p = false → e ≠ "" →
  hasChar "." e = false → hasChar "/" e = false →
  hasChar "?" e = false → hasChar "#" e = false →
  getFileExtension (p +:+ "." +:+ e) = Some e.
Proof.
  intros Hq Hh Hne E1 E2 E3 E4.
  induction p as [|c p IH].
  - rewrite string_app_nil_l, string_app_cons, string_app_nil_l. simpl.
    rewrite (extension_run_all e) by done. by destruct e.
  - simpl in Hq, Hh. apply orb_false_iff in Hq as [Hq1 Hq].
    apply orb_false_iff in Hh as [Hh1 Hh].
    rewrite string_app_cons. cbn -[String.append].
    rewrite (string_app_cons "." "" e), string_app_nil_l.
    rewrite (extension_run_blocked p e Hq Hh).
    rewrite (string_app_cons "." "" e), string_app_nil_l in IH.
    destruct (Ascii.eqb c "."); by apply IH.
Qed.

(** X16. The extension that is found is not empty, has none of the characters
    [. / ? #], and stands in the path after a dot and before the end of the
    path, a [?] or a [#]. *)
Theorem file_extension_sound path e :
  getFileExtension path = Some e →
  e ≠ ""
  ∧ hasChar "." e = false ∧ hasChar "/" e = false
  ∧ hasChar "?" e = false ∧ hasChar "#" e = false
  ∧ ∃ pre post, path = pre +:+ "." +:+ e +:+ post
                ∧ (post = "" ∨ startsWith "?" post = true
                   ∨ startsWith "#" post = true).
Proof.
  revert e. induction path as [|c path IH]; intros e.
  - done.
  - cbn -[extension_run]. destruct (Ascii.eqb_spec c ".") as [->|Hc].
    + destruct (extension_run path) as [[|x r]|] eqn:Hrun.
      * intros Hrest. destruct (IH _ Hrest)
          as (? & ? & ? & ? & ? & pre & post & -> & Hpost).
        repeat split; try done. by exists (String "." pre), post.
      * intros [= <-].
        apply extension_run_sound in Hrun
          as (H1 & H2 & H3 & H4 & post & -> & Hpost).
        repeat split; try done. by exists "", post.
      * intros Hrest. destruct (IH _ Hrest)
          as (? & ? & ? & ? & ? & pre & post & -> & Hpost).
        repeat split; try done. by exists (String "." pre), post.
    + intros Hrest. destruct (IH _ Hrest)
        as (? & ? & ? & ? & ? & pre & post & -> & Hpost).
      repeat split; try done. by exists (String c pre), post.
Qed.

(** X17. A path without a dot has no extension; a path that ends in a dot and
    a run of extension characters has that run as its extension, provided no
    [?] or [#] comes before the dot. *)
Theorem file_extension_found p e :
  (hasChar "." p = false → getFileExtension p = None)
  ∧ (hasChar "?" p = false → hasChar "#" p = false → e ≠ "" →
     hasChar "." e = false → hasChar "/" e = false →
     hasChar "?" e = false → hasChar "#" e = false →
     getFileExtension (p +:+ "." +:+ e) = Some e).
Proof.
  split; [|apply getFileExtension_suffix].
  induction p as [|c p IH]; [done|]. simpl.
  intros [Hc Hp]%orb_false_iff. rewrite Hc. by apply IH.
Qed.

Lemma ogImageHead_type fullOptions base data :
  last (ogImageHead fullOptions base data)
  = Some {| meta_attr := property; meta_key := "og:image:type";
            meta_content :=
              "image/" +:+ (getFileExtension (ogImagePath base data)
                            ??! "png") |}.
Proof.
  unfold ogImageHead. by destruct (negb _).
Qed.

(** X18. The type tag is "image/" followed by the extension of the image URL
    as it is written, and "image/png" when the URL has none. *)
Theorem og_image_type_from_extension fullOptions base data :
  (∀ p e,
     ogImagePath base data = p +:+ "." +:+ e →
     hasChar "?" p = false → hasChar "#" p = false → e ≠ "" →
     hasChar "." e = false → hasChar "/" e = false →
     hasChar "?" e = false → hasChar "#" e = false →
     last (ogImageHead fullOptions base data)
     = Some {| meta_attr := property; meta_key := "og:image:type";
               meta_content := "image/" +:+ e |})
  ∧ (hasChar "." (ogImagePath base data) = false →
     last (ogImageHead fullOptions base data)
     = Some {| meta_attr := property; meta_key := "og:image:type";
               meta_content := "image/png" |}).
Proof.
  split.
  - intros p e Hpath Hq Hh Hne E1 E2 E3 E4. rewrite ogImageHead_type, Hpath.
    by rewrite getFileExtension_suffix.
  - intros Hdot. rewrite ogImageHead_type.
    assert (getFileExtension (ogImagePath base data) = None) as ->; [|done].
    revert Hdot. generalize (ogImagePath base data) as s.
    induction s as [|c s IH]; [done|]. simpl.
    intros [Hc Hs]%orb_false_iff. rewrite Hc. by apply IH.
Qed.

(** X19. For a real file without [socialImage], with a base URL and a slug
    free of [?] and [#], the image URL is the generated one and its type tag
    is "image/webp". *)
Theorem generated_image_type_is_webp fullOptions base data s path :
  fm_get socialImage data = None →
  filePath data = Some path → slug data = Some s →
  hasChar "?" base = false → hasChar "#" base = false →
  hasChar "?" s = false → hasChar "#" s = false →
  ogImagePath base data = "https://" +:+ base +:+ "/" +:+ s +:+ "-og-image.webp"
  ∧ last (ogImageHead fullOptions base data)
    = Some {| meta_attr := property; meta_key := "og:image:type";
              meta_content := "image/webp" |}.
Proof.
  intros Himg Hfile Hslug Hb1 Hb2 Hs1 Hs2.
  assert (Hpath : ogImagePath base data
                  = "https://" +:+ base +:+ "/" +:+ s +:+ "-og-image.webp").
  { unfold ogImagePath, userDefinedOgImagePath, generatedOgImagePath.
    by rewrite Himg, Hfile, Hslug. }
  split; [done|]. rewrite ogImageHead_type, Hpath.
  replace ("https://" +:+ base +:+ "/" +:+ s +:+ "-og-image.webp")
    with (("https://" +:+ base +:+ "/" +:+ s +:+ "-og-image") +:+ "." +:+ "webp")
    by (by rewrite !string_app_assoc).
  rewrite getFileExtension_suffix; try done.
  - rewrite !hasChar_app. by rewrite Hb1, Hs1.
  - rewrite !hasChar_app. by rewrite Hb2, Hs2.
Qed.

(** Without a base URL, undefined or empty, there is no injector at all;
    with one there is exactly one, and it is total on pages. *)
Lemma injector_needs_base_url fullOptions ctx :
  (externalResources fullOptions ctx = []
   ↔ truthy (baseUrl (configuration ctx)) = false)
  ∧ (∀ b, baseUrl (configuration ctx) = Some b → b ≠ "" →
       externalResources fullOptions ctx = [ogImageHead fullOptions b]).
Proof.
  unfold externalResources.
  destruct (baseUrl (configuration ctx)) as [b|]; simpl.
  - destruct (String.eqb_spec b "") as [->|Hne]; simpl.
    + split; [done|]. by intros b [= <-].
    + split; [done|]. by intros b' [= <-].
  - done.
Qed.

(** ** The default layout *)

Section Layout.
Context `{LayoutHost}.

Lemma texts_tagChips scheme tagList :
  flat_map texts (tagChip scheme <$> tagList)
  = flat_map (λ t, ["#"; t]) tagList.
Proof.
  induction tagList as [|t l IH]; simpl; [done|]. do 2 f_equal. exact IH.
Qed.

Lemma texts_andChild v node :
  flat_map texts (andChild v node)
  = if truthy v then texts node else option_list v.
Proof.
  unfold andChild. destruct (truthy v); simpl; [by rewrite app_nil_r|].
  by destruct v.
Qed.

Lemma texts_valueChild v : flat_map texts (valueChild v) = option_list v.
Proof. by destruct v. Qed.

(** X20. The text of the default image, in document order: the site's base
    URL, the title, the description, the formatted date when the page has a
    date of the configured kind (and nothing in its place otherwise), the
    reading time, and the first three tags at most, in their order, each
    after a [#]. *)
Theorem default_image_texts (i : LayoutInput) :
  let date :=
    (λ d, formatDate d (li_locale i))
      <$> getDate (li_defaultDateType i) (li_dates i) in
  let readingTime :=
    (li_readingTimeText i ??! (λ time, pretty time +:+ " min read"))
      (readingMinutes (text (li_fileData i) ??! "")) in
  let tagList := fm_get tags (li_fileData i) ??! [] in
  texts (defaultImage i)
  = (if truthy (li_iconBase64 i) then [] else option_list (li_iconBase64 i))
    ++ option_list (baseUrl (li_cfg i))
    ++ [li_title i; li_description i]
    ++ option_list date
    ++ [readingTime]
    ++ flat_map (λ t, ["#"; t]) (take 3 tagList)
  ∧ length (take 3 tagList) ≤ 3.
Proof.
  intros date readingTime tagList. split; [|by rewrite length_take; lia].
  unfold defaultImage. fold date readingTime tagList.
  cbn [texts flat_map]. rewrite !flat_map_app. cbn [flat_map texts].
  rewrite !texts_andChild, !texts_valueChild, texts_tagChips.
  cbn [texts flat_map dateIcon readingTimeIcon svgIcon].
  rewrite texts_valueChild, !app_nil_r.
  destruct (truthy date); simpl; by rewrite <- !app_assoc.
Qed.

(** X21. The title is set in one [h1], at 64 when it is longer than 32
    characters and at 72 otherwise. *)
Theorem default_image_title_size (i : LayoutInput) :
  (λ n, (styleOf "fontSize" n, texts n)) <$> elementsByTag "h1" (defaultImage i)
  = [(Some (VNum (if (32 <? String.length (li_title i))%nat then 64 else 72)),
      [li_title i])].
Proof.
  unfold defaultImage. cbv zeta.
  set (date := _ <$> getDate _ _).
  cbn -[andChild valueChild tagChip dateIcon readingTimeIcon Nat.ltb].
  rewrite !flat_map_app.
  assert (Hchips : ∀ scheme l,
            flat_map (elementsByTag "h1") (tagChip scheme <$> l) = []).
  { intros scheme l. induction l as [|t l IH]; [done|]. simpl. exact IH. }
  rewrite Hchips. unfold andChild, valueChild.
  destruct (truthy (li_iconBase64 i)), (li_iconBase64 i),
    (baseUrl (li_cfg i)), (truthy date), date; reflexivity.
Qed.

(** X22. The site icon is drawn exactly when an icon is given (a non-empty
    data URI), and then once, with that URI as its source. *)
Theorem default_image_icon (i : LayoutInput) :
  attrOf "src" <$> elementsByTag "img" (defaultImage i)
  = if truthy (li_iconBase64 i)
    then [Some (VStr (li_iconBase64 i ??! ""))] else [].
Proof.
  unfold defaultImage. cbv zeta.
  set (date := _ <$> getDate _ _).
  cbn -[andChild valueChild tagChip dateIcon readingTimeIcon Nat.ltb].
  rewrite !flat_map_app.
  assert (Hchips : ∀ scheme l,
            flat_map (elementsByTag "img") (tagChip scheme <$> l) = []).
  { intros scheme l. induction l as [|t l IH]; [done|]. simpl. exact IH. }
  rewrite Hchips. unfold andChild, valueChild.
  destruct (truthy (li_iconBase64 i)), (li_iconBase64 i),
    (baseUrl (li_cfg i)), (truthy date), date; reflexivity.
Qed.

End Layout.

(** ** Instances of the further properties *)

Lemma stylesheet_url_is_quoted_witness :
  urlRegex_exec interCss = Some "https://fonts.gstatic.com/s/inter/v13/bold.ttf"
  ∧ ∃ pre post,
      interCss
      = pre +:+ "url(" +:+ "https://fonts.gstatic.com/s/inter/v13/bold.ttf"
        +:+ ")" +:+ post.
Proof.
  assert (Hexec : urlRegex_exec interCss
                  = Some "https://fonts.gstatic.com/s/inter/v13/bold.ttf")
    by (vm_compute; reflexivity).
  split; [exact Hexec|].
  exact (proj1 (stylesheet_url_is_quoted _ _ Hexec)).
Defined.

Lemma stylesheet_with_font_url_matches_witness :
  hasChar LF "inter/v13/bold" = false ∧ hasChar CR "inter/v13/bold" = false
  ∧ is_Some (urlRegex_exec
               ("src: " +:+ "url(https://fonts.gstatic.com/s/"
                +:+ "inter/v13/bold" +:+ ".ttf)" +:+ ";")).
Proof.
  split; [reflexivity|]. split; [reflexivity|].
  exact (proj1 (@stylesheet_with_font_url_matches exampleHost "src: "
                  "inter/v13/bold" ";" eq_refl eq_refl)).
Defined.

Lemma font_cache_is_append_only_witness :
  let run := @fetchTtf exampleHost "Inter" 700 emptyWorld in
  run = (Ok (Some interTtf), run.2)
  ∧ fs emptyWorld ⊆ fs run.2 ∧ layouts run.2 = [].
Proof.
  intros run.
  assert (Hrun : run = (Ok (Some interTtf), run.2)) by (vm_compute; reflexivity).
  split; [exact Hrun|].
  destruct (@font_cache_is_append_only exampleHost "Inter" 700 emptyWorld
              _ _ Hrun) as (Hfs & Hl & _).
  split; [exact Hfs | exact Hl].
Defined.


Lemma font_collection_order_witness :
  let run := @loadFonts exampleHost exampleCtx emptyWorld in
  run = (Ok [interFont], run.2)
  ∧ ∃ hs bs, [interFont] = hs ++ bs
             ∧ Forall (λ e, font_name e = "Inter") hs
             ∧ Forall (λ e, font_name e = "No Such Font") bs.
Proof.
  intros run.
  assert (Hrun : run = (Ok [interFont], run.2)) by (vm_compute; reflexivity).
  split; [exact Hrun|].
  destruct (@font_collection_order exampleHost _ _ _ _ _ Hrun)
    as (hs & bs & Heq & Hh & _ & Hb & _).
  exists hs, bs. split; [exact Heq|]. split; [exact Hh | exact Hb].
Defined.

Lemma font_collection_is_cached_witness :
  let run := @loadFonts exampleHost exampleCtx emptyWorld in
  run = (Ok [interFont], run.2)
  ∧ fs run.2 !! fontCachePath "Inter" 700 = Some interTtf.
Proof.
  intros run.
  assert (Hrun : run = (Ok [interFont], run.2)) by (vm_compute; reflexivity).
  split; [exact Hrun|].
  apply (proj2 (@font_collection_is_cached exampleHost _ _ _ _ _ Hrun)
           interFont).
  apply elem_of_cons. left. reflexivity.
Defined.

Lemma warm_cache_needs_no_network_witness :
  let w := (@fetchTtf exampleHost "Inter" 700 emptyWorld).2 in
  is_Some (fs w !! fontCachePath "Inter" 700)
  ∧ ∃ fonts,
      @getSatoriFonts exampleHost (FontName "Inter")
        (FontRecord "Inter" (Some []) None) w = (Ok fonts, w)
      ∧ font_weight <$> fonts = [700%N].
Proof.
  intros w.
  assert (Hhit : is_Some (fs w !! fontCachePath "Inter" 700))
    by (exists interTtf; vm_compute; reflexivity).
  split; [exact Hhit|].
  apply (@warm_cache_needs_no_network exampleHost (FontName "Inter")
           (FontRecord "Inter" (Some []) None) w).
  - intros wt Hin. apply list_elem_of_singleton in Hin. rewrite Hin.
    exact Hhit.
  - intros wt Hin. apply elem_of_nil in Hin. destruct Hin.
Defined.

Lemma delete_events_keep_images_witness :
  let events := [{| type := delete; file := Some (examplePage None) |}] in
  let run := @partialEmit exampleHost defaultOptions exampleCtx events
               builtWorld in
  Forall (λ e, type e = delete) events
  ∧ run = (Ok [], run.2)
  ∧ is_Some (fs builtWorld !! "public/a/b-og-image.webp")
  ∧ fs run.2 !! "public/a/b-og-image.webp"
    = fs builtWorld !! "public/a/b-og-image.webp".
Proof.
  intros events run.
  assert (Hdel : Forall (λ e, type e = delete) events)
    by (repeat constructor).
  assert (Hrun : run = (Ok [], run.2)) by (vm_compute; reflexivity).
  assert (Himg : ∃ image,
            fs builtWorld !! "public/a/b-og-image.webp" = Some image)
    by (eexists; vm_compute; reflexivity).
  split; [exact Hdel|]. split; [exact Hrun|]. split; [exact Himg|].
  destruct Himg as [image Himage]. rewrite Himage.
  exact (proj1 (@delete_events_keep_images exampleHost defaultOptions
                  exampleCtx events builtWorld _ _ Hdel Hrun) _ _ Himage).
Defined.

Lemma emit_loads_fonts_once_witness :
  let run := @emit exampleHost defaultOptions exampleCtx
               [examplePage None; coverPage] emptyWorld in
  run = (Ok ["public/a/b-og-image.webp"], run.2)
  ∧ ∃ loaded w1,
      @loadFonts exampleHost exampleCtx emptyWorld = (loaded, w1)
      ∧ cacheStep emptyWorld w1.
Proof.
  intros run.
  assert (Hrun : run = (Ok ["public/a/b-og-image.webp"], run.2))
    by (vm_compute; reflexivity).
  split; [exact Hrun|].
  destruct (@emit_loads_fonts_once exampleHost _ _ _ _ _ _ Hrun)
    as (loaded & w1 & Hload & Hstep & _).
  exists loaded, w1. split; [exact Hload | exact Hstep].
Defined.

Lemma emit_yields_every_page_witness :
  let run := @loadFonts steadyHost exampleCtx emptyWorld in
  run = (Ok [interFont], run.2)
  ∧ (∀ img icon, is_Some (@rasterize steadyHost img defaultOptions icon))
  ∧ ∃ w',
      @emit steadyHost defaultOptions exampleCtx
        [examplePage None; coverPage; barePage] emptyWorld
      = (Ok ["public/a/b-og-image.webp"; "public/notes/bare-og-image.webp"],
         w').
Proof.
  intros run.
  assert (Hrun : run = (Ok [interFont], run.2)) by (vm_compute; reflexivity).
  assert (Htotal : ∀ img icon,
            is_Some (@rasterize steadyHost img defaultOptions icon))
    by (intros img icon; eexists; reflexivity).
  split; [exact Hrun|]. split; [exact Htotal|].
  destruct (@emit_yields_every_page steadyHost defaultOptions exampleCtx
              [examplePage None; coverPage; barePage] emptyWorld _ _
              Hrun Htotal) as (w' & Hemit & _).
  exists w'. exact Hemit.
Defined.



Lemma file_extension_sound_witness :
  getFileExtension "https://example.com/static/x.png?v=1" = Some "png"
  ∧ "png" ≠ "".
Proof.
  assert (Hext : getFileExtension "https://example.com/static/x.png?v=1"
                 = Some "png") by (vm_compute; reflexivity).
  split; [exact Hext|].
  exact (proj1 (file_extension_sound _ _ Hext)).
Defined.

Lemma generated_image_type_is_webp_witness :
  fm_get socialImage (examplePage None) = None
  ∧ filePath (examplePage None) = Some "content/a/b.md"
  ∧ slug (examplePage None) = Some "a/b"
  ∧ ogImagePath "example.com" (examplePage None)
    = "https://" +:+ "example.com" +:+ "/" +:+ "a/b" +:+ "-og-image.webp".
Proof.
  split; [reflexivity|]. split; [reflexivity|]. split; [reflexivity|].
  exact (proj1 (generated_image_type_is_webp defaultOptions "example.com"
                  (examplePage None) "a/b" "content/a/b.md"
                  eq_refl eq_refl eq_refl eq_refl eq_refl eq_refl eq_refl)).
Defined.
